(** * nfc-core: attestation and verification layer for the SE051C secure element

    A shallow embedding of the TypeScript sources ([utils/helpers.ts], the
    APDU builders and the [NfcCore] class) together with the properties the
    specification states about them.

    Conventions.
    - A JavaScript [number[]] / [Uint8Array] is a [list Z]; a byte is a [Z]
      in [0, 256) and that range is stated wherever a property needs it.
    - A thrown [Error] is [Throw message]; the message is the one written at
      the throw site.
    - An out-of-range array read ([undefined]) is [None].
    - An [async] method is the outcome of its promise and [await] is the
      bind of that outcome; a promise that leaves a [try] statement without
      being awaited is settled outside it, so its rejection is not caught
      there (see [readStoredDataWithFallback]).
    - Strings are [string]; their characters stand for code units below 256. *)

From Stdlib Require Import ZArith String Ascii DecimalString HexadecimalString Lia.
From stdpp Require Import gmap strings list.

Local Open Scope Z_scope.

(** ** JavaScript primitives the sources rely on *)

Module JS.

(** Outcome of a call: a value, a thrown [Error] with its message, or a
    loop that was still running when the model's fuel ran out. *)
Inductive result (A : Type) : Type :=
| Ok (a : A)
| Throw (message : string)
| OutOfFuel.
Arguments Ok {A} a.
Arguments Throw {A} message.
Arguments OutOfFuel {A}.

Definition bind {A B} (r : result A) (k : A -> result B) : result B :=
  match r with
  | Ok a => k a
  | Throw m => Throw m
  | OutOfFuel => OutOfFuel
  end.

(** 32-bit integer view used by the bitwise operators. *)
Definition ToInt32 (z : Z) : Z := (z + 2 ^ 31) mod 2 ^ 32 - 2 ^ 31.

(** [a << k] for [0 <= k < 32] *)
Definition shl32 (a k : Z) : Z := ToInt32 (Z.shiftl (ToInt32 a) k).

(** [a | b] *)
Definition or32 (a b : Z) : Z := Z.lor (ToInt32 a) (ToInt32 b).

(** An [undefined] operand of a bitwise operator counts as 0. *)
Definition int_of (v : option Z) : Z := default 0 v.

Definition len {A} (l : list A) : Z := Z.of_nat (length l).

(** [arr[i]] *)
Definition get {A} (l : list A) (i : Z) : option A :=
  if i <? 0 then None else l !! Z.to_nat i.

(** [arr.at(i)] *)
Definition at_ {A} (l : list A) (i : Z) : option A :=
  get l (if i <? 0 then len l + i else i).

(** Clamp of a relative index, as [Array.prototype.slice] does it. *)
Definition clamp (n i : Z) : Z :=
  if i <? 0 then Z.max (n + i) 0 else Z.min i n.

(** [arr.slice(start, end)] *)
Definition slice {A} (l : list A) (start stop : Z) : list A :=
  let k := clamp (len l) start in
  let final := clamp (len l) stop in
  take (Z.to_nat (final - k)) (drop (Z.to_nat k) l).

(** [arr.slice(start)] *)
Definition slice_from {A} (l : list A) (start : Z) : list A :=
  drop (Z.to_nat (clamp (len l) start)) l.

(** [String(n)] for an integer [n] (decimal, no exponent form: the
    integers met here are far below 1e21). *)
Definition Number_toString (n : Z) : string :=
  DecimalString.NilZero.string_of_int (Z.to_int n).

(** [n.toString(16)] for an integer [n]. *)
Definition Number_toString16 (n : Z) : string :=
  HexadecimalString.NilZero.string_of_int (Z.to_hex_int n).

(** [arr.join("")] on an array of integers. *)
Definition join_empty (l : list Z) : string :=
  foldr (fun n s => Number_toString n +:+ s) EmptyString l.

(** [s.padStart(2, "0")] *)
Definition padStart2 (s : string) : string :=
  match s with
  | EmptyString => "00"
  | String c EmptyString => String "0" s
  | _ => s
  end.

(** White space and line terminators among the code units below 256. *)
Definition isWhiteSpace (c : ascii) : bool :=
  let n := Z.of_N (N_of_ascii c) in
  (n =? 9) || (n =? 10) || (n =? 11) || (n =? 12) || (n =? 13)
  || (n =? 32) || (n =? 160).

Fixpoint trimStart (s : string) : string :=
  match s with
  | String c r => if isWhiteSpace c then trimStart r else s
  | EmptyString => s
  end.

(** Value of a radix-16 digit. *)
Definition digit16 (c : ascii) : option Z :=
  let n := Z.of_N (N_of_ascii c) in
  if (48 <=? n) && (n <=? 57) then Some (n - 48)
  else if (97 <=? n) && (n <=? 102) then Some (n - 87)
  else if (65 <=? n) && (n <=? 70) then Some (n - 55)
  else None.

(** Value of the longest prefix of radix-16 digits. *)
Fixpoint digits16 (s : string) (acc : Z) : Z :=
  match s with
  | String c r =>
      match digit16 c with
      | Some d => digits16 r (16 * acc + d)
      | None => acc
      end
  | EmptyString => acc
  end.

(** [parseInt(s, 16)]; [None] is [NaN].  Leading white space is skipped,
    one sign and one [0x]/[0X] prefix are accepted, and parsing stops at
    the first code unit that is not a digit. *)
Definition parseInt16 (s : string) : option Z :=
  let s1 := trimStart s in
  let '(sign, s2) :=
    match s1 with
    | String "-" r => (-1, r)
    | String "+" r => (1, r)
    | _ => (1, s1)
    end in
  let s3 :=
    match s2 with
    | String "0" (String "x" r) => r
    | String "0" (String "X" r) => r
    | _ => s2
    end in
  match s3 with
  | String c _ =>
      match digit16 c with
      | Some _ => Some (sign * digits16 s3 0)
      | None => None
      end
  | EmptyString => None
  end.

(** Truthiness of a [string | null | undefined]: the empty string is
    falsy like [null]. *)
Definition truthy (s : option string) : option string :=
  match s with
  | Some EmptyString => None
  | _ => s
  end.

(** Conversion of a number stored into a [Uint8Array]. *)
Definition ToUint8 (n : Z) : Z := n mod 256.

End JS.

Import JS.

Abbreviation bytes := (list Z).

Definition is_byte (b : Z) : Prop := 0 <= b < 256.

(** ** utils/helpers.ts: byte utilities *)

(** Loop of [toLittleEndian]: [i] is the loop index, [out] the array pushed
    to.  Each turn consumes one unit of [fuel]. *)
Fixpoint toLittleEndian_loop (fuel : nat) (bigEndianArray : bytes) (i : Z)
    (littleEndianArray : bytes) : bytes :=
  match fuel with
  | O => littleEndianArray
  | S fuel' =>
      if i <? len bigEndianArray then
        let chunk := slice bigEndianArray i (i + 32) in
        toLittleEndian_loop fuel' bigEndianArray (i + 32)
          (littleEndianArray ++ rev chunk)
      else littleEndianArray
  end.

(** The loop index grows by 32 per turn, so [length] turns always suffice
    (see [toLittleEndian_loop_fuel]). *)
Definition toLittleEndian (bigEndianArray : bytes) : bytes :=
  toLittleEndian_loop (length bigEndianArray) bigEndianArray 0 [].

Definition encodeTLVLength (length : Z) : result bytes :=
  if length <=? 127 then Ok [length]
  else if length <=? 255 then Ok [0x81; length]
  else if length <=? 65535 then
    Ok [0x82; Z.land (Z.shiftr length 8) 0xff; Z.land length 0xff]
  else Throw "Length exceeds maximum supported size of 65535.".

(** The operands of [>>] and [&] are 32-bit views; bits 8 to 15 of the view
    are those of the integer itself. *)
Definition encodeLength (length : Z) : bytes :=
  if length <=? 255 then [length]
  else [0x00; Z.land (Z.shiftr length 8) 0xff; Z.land length 0xff].

(** Loop of [hexToUint8Array]: the string is consumed two code units at a
    time ([hexString.slice(i, i + 2)]). *)
Fixpoint hexToUint8Array_loop (hexString : string) : result bytes :=
  match hexString with
  | EmptyString => Ok []
  | String a (String b rest) =>
      match parseInt16 (String a (String b EmptyString)) with
      | None => Throw "Invalid hexadecimal string: contains invalid characters."
      | Some value =>
          bind (hexToUint8Array_loop rest) (fun bs => Ok (value :: bs))
      end
  | String a EmptyString =>
      match parseInt16 (String a EmptyString) with
      | None => Throw "Invalid hexadecimal string: contains invalid characters."
      | Some value => Ok [value]
      end
  end.

Definition hexToUint8Array (hexString : string) : result bytes :=
  if negb (Z.of_nat (String.length hexString) mod 2 =? 0) then
    Throw "Invalid hexadecimal string: length must be even."
  else
    bind (hexToUint8Array_loop hexString) (fun bs => Ok (ToUint8 <$> bs)).

Definition bytesToHex (byteArray : bytes) : string :=
  foldr (fun byte s => padStart2 (Number_toString16 byte) +:+ s)
    EmptyString byteArray.

(** ** utils/helpers.ts: TLV secure-object codec *)

(** The [switch (tag)] of the parser: key under which a tag is stored. *)
Definition tagKey (tag : Z) : option string :=
  if tag =? 0x41 then Some "TAG_1"%string
  else if tag =? 0x42 then Some "TAG_2"%string
  else if tag =? 0x43 then Some "TAG_3"%string
  else if tag =? 0x44 then Some "TAG_4"%string
  else if tag =? 0x45 then Some "TAG_5"%string
  else if tag =? 0x46 then Some "TAG_6"%string
  else None.

(** The length rule of the parser, reading at [index] (the byte after the
    tag).  Returns the decoded length ([None] is [undefined]) and the index
    of the first value byte. *)
Definition decodeLength (payload : bytes) (index : Z) : option Z * Z :=
  let length := get payload index in
  let index := index + 1 in
  match length with
  | Some l =>
      if l =? 0x81 then (get payload index, index + 1)
      else if l =? 0x82 then
        (Some (or32 (shl32 (int_of (get payload index)) 8)
                 (int_of (get payload (index + 1)))),
         index + 2)
      else (length, index)
  | None => (length, index)
  end.

(** One turn of the [while] loop.  The new index is [None] when it became
    [NaN] (an [undefined] length was added to it); [slice(index, NaN)] is
    [slice(index, 0)]. *)
Definition parse_step (payload : bytes) (index : Z)
    (parsedData : gmap string bytes) : option Z * gmap string bytes :=
  let tag := get payload index in
  let index := index + 1 in
  let '(length, index) := decodeLength payload index in
  let value :=
    match length with
    | Some l => slice payload index (index + l)
    | None => slice payload index 0
    end in
  let index' := (fun l => index + l) <$> length in
  let parsedData :=
    match tag ≫= tagKey with
    | Some key => <[key := value]> parsedData
    | None => parsedData
    end in
  (index', parsedData).

Fixpoint parse_loop (fuel : nat) (payload : bytes) (index : Z)
    (parsedData : gmap string bytes) {struct fuel} : result (gmap string bytes) :=
  if index <? len payload then
    match fuel with
    | O => OutOfFuel
    | S fuel' =>
        match parse_step payload index parsedData with
        | (Some index', parsedData') => parse_loop fuel' payload index' parsedData'
        | (None, parsedData') => Ok parsedData'
        end
    end
  else Ok parsedData.

(** On bytes every turn moves the index forward by two or more, so the
    fuel given here is never used up (see [parse_loop_bytes]). *)
Definition parseSecureObjectPayload (payload : bytes) : result (gmap string bytes) :=
  parse_loop (S (length payload)) payload 0 ∅.

(** Attribute record built by [extractAttributes]. *)
Record Attributes : Type := {
  objectId : bytes;
  objectClass : option Z;
  authenticationIndicator : option Z;
  authCounter : bytes;
  authID : bytes;
  maxAuthAttempt : bytes;
  policy : bytes;
  origin : option Z
}.

Definition extractAttributes (parsedData : bytes) : Attributes :=
  {| objectId := slice parsedData 0 4;
     objectClass := get parsedData 4;
     authenticationIndicator := get parsedData 5;
     authCounter := slice parsedData 6 8;
     authID := slice parsedData 8 12;
     maxAuthAttempt := slice parsedData 13 14;
     policy := slice parsedData 14 (len parsedData - 1);
     origin := get parsedData (len parsedData - 1) |}.

(** Stored object returned by [verifyData]. *)
Record StoredObject : Type := {
  data : bytes;
  attributes : Attributes
}.

(** Message of the [TypeError] raised when the absent field [key] is spread
    into an array literal, as Node words it: it names the field. *)
Definition not_iterable (key : string) : string :=
  "parsedData." +:+ key +:+ " is not iterable".

(** [...parsedData[key]] *)
Definition spread (parsedData : gmap string bytes) (key : string) : result bytes :=
  match parsedData !! key with
  | Some v => Ok v
  | None => Throw (not_iterable key)
  end.

(** ** utils/helpers.ts: attestation verifier

    The hash, the signature check, the X.509 reader and the base-58
    encoder come from external packages (@noble/hashes, @noble/curves,
    jsrsasign, bs58); they are the fields of the record [Crypto], and every
    property below holds whatever they are. *)

(** First argument of [p256.verify]: a hexadecimal string or a byte array. *)
Inductive Hex : Type :=
| HexString (s : string)
| HexBytes (b : bytes).

Record Crypto : Type := {
  (** jsrsasign's parsed certificate *)
  X509 : Type;
  sha256 : bytes -> bytes;
  p256_verify : Hex -> bytes -> bytes -> result bool;
  (** [x509.readCertHex(hex)] *)
  readCertHex : string -> result X509;
  (** [x509.hex] *)
  X509_hex : X509 -> string;
  (** [ASN1HEX.getTLVbyList(hex, idx, nthList, checkingTag)];
      [None] is [null]/[undefined] *)
  getTLVbyList : string -> Z -> list Z -> string -> result (option string);
  (** [x509.getSignatureValueHex()] *)
  getSignatureValueHex : X509 -> result string;
  (** [x509.getSPKIValue()] *)
  getSPKIValue : X509 -> result string;
  (** [bs58.encode] *)
  bs58_encode : bytes -> string
}.

Section Verifier.

Context (C : Crypto).

Definition verifyAndExtractParsedAddress (parsedData : gmap string bytes)
    (attestationKey : bytes) : result (option bytes) :=
  bind (spread parsedData "TAG_1") (fun t1 =>
  bind (spread parsedData "TAG_2") (fun t2 =>
  bind (spread parsedData "TAG_3") (fun t3 =>
  bind (spread parsedData "TAG_4") (fun t4 =>
  bind (spread parsedData "TAG_5") (fun t5 =>
  let dataToVerify := ToUint8 <$> (t1 ++ t2 ++ t3 ++ t4 ++ t5) in
  let hash := sha256 C dataToVerify in
  let signature := ToUint8 <$> default [] (parsedData !! "TAG_6"%string) in
  bind (p256_verify C (HexBytes signature) hash attestationKey) (fun ok =>
  if ok then Ok (parsedData !! "TAG_1"%string) else Ok None)))))).

(** When [data] is not [null] the field TAG_2 is there: its absence would
    have made the spread above throw. *)
Definition verifyData (response : bytes) (attestationKey : bytes)
    (errorMsg : string) : result StoredObject :=
  bind (parseSecureObjectPayload response) (fun parsed =>
  bind (verifyAndExtractParsedAddress parsed attestationKey) (fun data =>
  match data with
  | None => Throw errorMsg
  | Some data =>
      Ok {| data := data;
            attributes := extractAttributes (default [] (parsed !! "TAG_2"%string)) |}
  end)).

Definition parseX509FromNumberArray (derCert : bytes) (certificatePubkey : bytes)
    : result bytes :=
  let hexCert := bytesToHex derCert in
  bind (readCertHex C hexCert) (fun x509 =>
  bind (getTLVbyList C (X509_hex C x509) 0 [0] "30") (fun tbsCert =>
  bind
    match truthy tbsCert with
    | Some tbsCert =>
        bind (hexToUint8Array tbsCert) (fun tbs =>
        let hash := sha256 C tbs in
        bind (getSignatureValueHex C x509) (fun signature =>
        bind (p256_verify C (HexString signature) hash certificatePubkey) (fun ok =>
        if ok then
          bind (getSPKIValue C x509) (fun spki =>
          bind (hexToUint8Array spki) (fun key => Ok (Some key)))
        else Ok None)))
    | None => Ok None
    end
    (fun returned =>
  match returned with
  | Some key => Ok key
  | None => Throw "Unauthorised certificate signature."
  end))).

End Verifier.

(** ** apdu: command builders *)

Definition readData (key : bytes) : bytes :=
  [0x80; 0x02; 0x00; 0x00] ++ [0x00; 0x00; 0x06] ++ [0x41; 0x04] ++ key
    ++ [0x00; 0x00].

(** An element of the array built by [createAsset]: a number, or an array
    stored as one element. *)
Inductive item : Type :=
| Num (n : Z)
| Arr (a : bytes).

(** [[id].concat(assetId)] is the one-element array [[id]] followed by the
    elements of [assetId]. *)
Definition createAsset (id assetIdentifier assetId : bytes) : list item :=
  let data := [Arr id] ++ (Num <$> assetId) in
  let payload :=
    [Num 0x11; Num 0x09; Num 0x08; Num 0x00; Num 0x00; Num 0x00; Num 0x00;
     Num 0x00; Num 0x20; Num 0x00; Num 0x00; Num 0x41; Num 0x04]
    ++ (Num <$> assetIdentifier)
    ++ [Num 0x43; Num 0x02; Num 0x00; Num (len data); Num 0x44; Num (len data)]
    ++ data in
  [Num 0x80; Num 0x01; Num 0x06; Num 0x00; Num (len payload)] ++ payload.

(** Bytes of an array once nested arrays are flattened one level
    ([Array.prototype.flat]). *)
Definition flat (l : list item) : bytes :=
  l ≫= (fun x => match x with Num n => [n] | Arr a => a end).

(** The builders imported from "./apdu" whose files are not part of the
    sources at hand. *)
Record Apdu : Type := {
  selectApplet : bytes -> bytes;
  readDataWithAttestation : bytes -> bytes -> bytes;
  createAddress : bytes -> Z -> bytes;
  signEd25519 : bytes -> bytes -> bytes
}.

(** ** utils: the table of supported ledgers *)

Module Chain.
Record t : Type := { id : Z; curve : Z; name : string }.
End Chain.

Definition SOLANA : Chain.t := {| Chain.id := 0x01; Chain.curve := 0x40; Chain.name := "Solana" |}.
Definition ETHEREUM : Chain.t := {| Chain.id := 0x02; Chain.curve := 0x41; Chain.name := "Ethereum" |}.
Definition BITCOIN : Chain.t := {| Chain.id := 0x03; Chain.curve := 0x42; Chain.name := "Bitcoin" |}.

(** [Object.entries(BLOCKCHAIN)] *)
Definition BLOCKCHAIN : list (string * Chain.t) :=
  [("SOLANA"%string, SOLANA); ("ETHEREUM"%string, ETHEREUM); ("BITCOIN"%string, BITCOIN)].

(** ** types: the transport consumed by the core *)

Inductive NfcTech : Type :=
| Ndef | NfcA | NfcB | NfcF | NfcV | IsoDep | MifareClassic | MifareUltralight
| MifareIOS | Iso15693IOS | FelicaIOS | NdefFormatable.

(** A call made on the handler. *)
Inductive call : Type :=
| IsSupported
| Start
| RequestTechnology (tech : NfcTech)
| CancelTechnologyRequest
| SetTimeout (timeout : Z)
| Transceive (command : bytes).

(** [INfcHandler].  The handler is any deterministic device: what a method
    answers may depend on every call made before it, given as the first
    argument (oldest call first).  [requestTechnology] is only ever called
    with the one option [invalidateAfterFirstRead: false], and the
    technology it returns is not looked at. *)
Record INfcHandler : Type := {
  start : list call -> result unit;
  isSupported : list call -> result bool;
  requestTechnology : list call -> NfcTech -> result unit;
  cancelTechnologyRequest : list call -> result unit;
  transceive : list call -> bytes -> result bytes;
  setTimeout : list call -> Z -> result unit
}.

(** ** The NfcCore class *)

Module NfcCore.

(** Mutable part of an instance: the [isReady] flag and, standing for the
    state of the handler it owns, the calls made on it so far. *)
Record state : Type := {
  isReady : bool;
  calls : list call
}.

(** An [async] method: it runs from a state to an outcome and a state. *)
Definition M (A : Type) : Type := state -> result A * state.

Definition ret {A} (a : A) : M A := fun s => (Ok a, s).

Definition throw {A} (message : string) : M A := fun s => (Throw message, s).

Definition lift {A} (r : result A) : M A := fun s => (r, s).

Definition bindM {A B} (m : M A) (k : A -> M B) : M B :=
  fun s =>
    match m s with
    | (Ok a, s') => k a s'
    | (Throw e, s') => (Throw e, s')
    | (OutOfFuel, s') => (OutOfFuel, s')
    end.

(** [try { body } catch (error) { handler }] *)
Definition try_catch {A} (body : M A) (handler : string -> M A) : M A :=
  fun s =>
    match body s with
    | (Throw e, s') => handler e s'
    | other => other
    end.

(** [try { body } finally { final }]: [final] runs on both exits, and an
    error it throws replaces the outcome of [body]. *)
Definition try_finally {A} (body : M A) (final : M unit) : M A :=
  fun s =>
    match body s with
    | (OutOfFuel, s') => (OutOfFuel, s')
    | (r, s') =>
        match final s' with
        | (Ok _, s'') => (r, s'')
        | (Throw e, s'') => (Throw e, s'')
        | (OutOfFuel, s'') => (OutOfFuel, s'')
        end
    end.

Declare Scope nfc_scope.
Delimit Scope nfc_scope with nfc.
Notation "'let*' x ':=' m 'in' k" := (bindM m (fun x => k))
  (at level 10, x pattern, m at level 100, k at level 200) : nfc_scope.
Notation "m ;; k" := (bindM m (fun _ => k))
  (at level 100, k at level 200, right associativity) : nfc_scope.
Local Open Scope nfc_scope.

Definition TIMEOUT : Z := 5 * 1000.
Definition MAX_APDU_SIZE : Z := 900.
Definition ASSET_ID : bytes := [0x00; 0x00; 0x00; 0x00].
Definition CHAIN_ID : bytes := [0x01; 0x00; 0x00; 0x00].
Definition ATTESTATION_KEY : bytes := [0xf0; 0x00; 0x00; 0x12].
Definition ATTESTATION_KEY_CERT : bytes := [0xf0; 0x00; 0x00; 0x13].
Definition AID : bytes :=
  [0xa0; 0x00; 0x00; 0x03; 0x96; 0x54; 0x53; 0x00; 0x00; 0x00; 0x01; 0x03;
   0x00; 0x00; 0x00; 0x00].
Definition CERTIFICATE_PUBKEY_hex : string :=
  "04999e37435ffbdc7078f13a3e005ba9dba6c6f89bd150d779903daff84b2520cdee050155bead493f625f894eb04a54315e86844ee4a58c78471e9ca6149163b4".
(** [hexToUint8Array] of the constant above, evaluated once (it does not
    throw, see [CERTIFICATE_PUBKEY_ok]). *)
Definition CERTIFICATE_PUBKEY : bytes :=
  Eval vm_compute in
    match hexToUint8Array CERTIFICATE_PUBKEY_hex with
    | Ok b => b
    | _ => []
    end.

(** Value returned by [readSecureElement]. *)
Record SecureElement : Type := {
  walletAddress : string;
  mint : option string;
  blockchain : option Chain.t
}.

(** The checks [readStoredPubkey] makes on what it read. *)
Definition readStoredPubkey_checks (storedPubkey : option StoredObject)
    : result bytes :=
  match storedPubkey with
  | None => Throw "Unable to read publickey"
  | Some {| data := pubKey; attributes := attributes |} =>
      if negb (bool_decide (objectClass attributes = Some 1)) then
        Throw "Object is not a valid key"
      else if negb (bool_decide (origin attributes = Some 2)) then
        Throw "Key is not generated from secure element!"
      else if bool_decide (authenticationIndicator attributes = Some 2) then
        Throw "Key should not be an authentication object"
      else if negb (String.eqb (join_empty (policy attributes))
                      (join_empty [8; 0; 0; 0; 0; 24; 32; 0; 0])) then
        Throw "Key policy is not set correctly"
      else Ok pubKey
  end.

(** The checks [readStoredAsset] makes on what it read. *)
Definition readStoredAsset_checks (storedAsset : option StoredObject)
    : result (option bytes) :=
  match storedAsset with
  | None => Ok None
  | Some {| data := mint; attributes := attributes |} =>
      if negb (String.eqb (join_empty (policy attributes))
                 (join_empty [8; 0; 0; 0; 0; 0; 32; 0; 0])) then
        Throw "Asset is set with wrong policy"
      else Ok (Some mint)
  end.

Section Instance.

(** External packages, the builders of "./apdu", and the two arguments
    of the constructor. *)
Context (C : Crypto) (A : Apdu) (nfcHandler : INfcHandler) (isAndroid : bool).

(** A call on the handler: it answers from the calls made so far, and
    the call is recorded. *)
Definition invoke {T} (c : call) (answer : list call -> result T) : M T :=
  fun s =>
    (answer (calls s), {| isReady := isReady s; calls := calls s ++ [c] |}).

Definition set_isReady (b : bool) : M unit :=
  fun s => (Ok tt, {| isReady := b; calls := calls s |}).

Definition init : M unit :=
  try_catch
    (let* supported := invoke IsSupported (isSupported nfcHandler) in
     if (supported : bool) then
       invoke Start (start nfcHandler);;
       set_isReady true
     else throw "NFC is not supported on this device.")
    (fun _ => ret tt).

Definition close : M unit :=
  invoke CancelTechnologyRequest (cancelTechnologyRequest nfcHandler).

Definition transceiveAndCheck (command : bytes) (errorMsg : string) : M bytes :=
  let* response :=
    invoke (Transceive command) (fun h => transceive nfcHandler h command) in
  if negb (bool_decide (at_ response (-2) = Some 0x90))
     || negb (bool_decide (at_ response (-1) = Some 0x00))
  then throw errorMsg
  else ret (slice response 0 (-2)).

Definition ensureReady : M unit :=
  fun s =>
    (if negb (isReady s) then throw "NFC is not supported on this device."
     else
       invoke (RequestTechnology IsoDep)
         (fun h => requestTechnology nfcHandler h IsoDep);;
       (if isAndroid then
          invoke (SetTimeout TIMEOUT) (fun h => setTimeout nfcHandler h TIMEOUT)
        else ret tt);;
       transceiveAndCheck (selectApplet A AID) "Selecting Applet failed";;
       ret tt) s.

(** [return verifyData(...)] hands the promise of the asynchronous
    [verifyData] out of the [try] statement without awaiting it: a
    rejection of that promise is not caught by the [catch] block, it
    becomes the rejection of the promise of this method.  [verifyData]
    calls nothing on the handler, so the promise is modelled by its
    outcome: [returned] is what the [try] statement returns (a promise, or
    [null] as a settled value), and [lift returned] settles the promise of
    the method with it.  Only the awaited exchange is inside the [try]. *)
Definition readStoredDataWithFallback (readCommand : bytes)
    (createCommand : option bytes) (attestationKey : bytes)
    (readErrorMsg : string) (createErrorMsg : option string)
    : M (option StoredObject) :=
  let* returned :=
    try_catch
      (let* response := transceiveAndCheck readCommand readErrorMsg in
       ret (bind (verifyData C response attestationKey readErrorMsg)
              (fun stored => Ok (Some stored))))
      (fun _ =>
         match createCommand, truthy createErrorMsg with
         | Some createCommand, Some createErrorMsg =>
             transceiveAndCheck createCommand createErrorMsg;;
             let* response := transceiveAndCheck readCommand readErrorMsg in
             ret (bind (verifyData C response attestationKey readErrorMsg)
                    (fun stored => Ok (Some stored)))
         | _, _ => ret (Ok None)
         end) in
  lift returned.

Definition readStoredPubkey (attestationKey : bytes) : M bytes :=
  let* storedPubkey :=
    readStoredDataWithFallback
      (readDataWithAttestation A CHAIN_ID ATTESTATION_KEY)
      (Some (createAddress A CHAIN_ID (Chain.curve SOLANA)))
      attestationKey
      "Reading Public Key failed"
      (Some "Generating Public Key failed"%string) in
  lift (readStoredPubkey_checks storedPubkey).

Definition readStoredAsset (attestationKey : bytes) : M (option bytes) :=
  let* storedAsset :=
    readStoredDataWithFallback
      (readDataWithAttestation A ASSET_ID ATTESTATION_KEY)
      None
      attestationKey
      "Reading Stored Asset failed"
      None in
  lift (readStoredAsset_checks storedAsset).

Definition readSecureElement : M SecureElement :=
  try_finally
    (try_catch
       (ensureReady;;
        let* attestationKeyCertificateResponse :=
          transceiveAndCheck (readData ATTESTATION_KEY_CERT)
            "Reading attestation key certificate failed" in
        let* attestationKey :=
          lift (parseX509FromNumberArray C
                  (slice_from attestationKeyCertificateResponse 4)
                  CERTIFICATE_PUBKEY) in
        let* storedAddress := readStoredPubkey attestationKey in
        let* storedAsset := readStoredAsset attestationKey in
        ret {| walletAddress := bs58_encode C (toLittleEndian storedAddress);
               mint := (fun a => bs58_encode C (slice_from a 1)) <$> storedAsset;
               blockchain :=
                 snd <$> find
                   (fun x =>
                      match storedAsset with
                      | Some a => bool_decide (Some (Chain.id (snd x)) = get a 0)
                      | None => false
                      end)
                   BLOCKCHAIN |})
       (fun message => throw message))
    close.

Definition signRawPayload (payload : bytes) : M bytes :=
  try_finally
    (try_catch
       (if len payload >? MAX_APDU_SIZE then
          throw ("Transaction size cannot exceed " +:+ Number_toString MAX_APDU_SIZE
                 +:+ " bytes, Size: " +:+ Number_toString (len payload))
        else
          ensureReady;;
          let* response :=
            transceiveAndCheck (signEd25519 A CHAIN_ID payload)
              "Signing Transaction failed" in
          ret (toLittleEndian (slice_from response 4)))
       (fun message => throw message))
    close.

(** One checked exchange and the verification of what it returned, as
    the [catch] block of [readStoredDataWithFallback] runs them for the
    second read. *)
Definition readAndVerify (readCommand attestationKey : bytes)
    (readErrorMsg : string) : M StoredObject :=
  let* response := transceiveAndCheck readCommand readErrorMsg in
  lift (verifyData C response attestationKey readErrorMsg).

(** The statements of [readSecureElement] that come before the two
    object reads: they yield the attestation key. *)
Definition session_prefix : M bytes :=
  ensureReady;;
  let* attestationKeyCertificateResponse :=
    transceiveAndCheck (readData ATTESTATION_KEY_CERT)
      "Reading attestation key certificate failed" in
  lift (parseX509FromNumberArray C
          (slice_from attestationKeyCertificateResponse 4)
          CERTIFICATE_PUBKEY).

End Instance.

(** State after further calls on the handler. *)
Definition after (s : state) (cs : list call) : state :=
  {| isReady := isReady s; calls := calls s ++ cs |}.

(** Calls that open a session, before the applet is selected. *)
Definition opening (isAndroid : bool) : list call :=
  RequestTechnology IsoDep :: (if isAndroid then [SetTimeout TIMEOUT] else []).

(** The commands exchanged, oldest first. *)
Definition sent (h : list call) : list bytes :=
  h ≫= (fun c => match c with Transceive command => [command] | _ => [] end).

End NfcCore.

(** ** Vocabulary of the specification *)

(** Consecutive blocks of [n] elements; the last one may be shorter.
    [fuel] bounds the number of blocks. *)
Fixpoint chunks_fuel {T} (fuel : nat) (n : nat) (l : list T) : list (list T) :=
  match fuel, l with
  | S fuel', _ :: _ => take n l :: chunks_fuel fuel' n (drop n l)
  | _, _ => []
  end.

Definition chunks {T} (n : nat) (l : list T) : list (list T) :=
  chunks_fuel (length l) n l.

(** "Byte order reversed independently within every consecutive 32-byte
    block." *)
Definition reverse_chunks (l : bytes) : bytes :=
  concat ((fun chunk => rev chunk) <$> chunks 32 l).

(** "Only the bytes actually present": every value held by the map is a
    run of consecutive bytes of the payload. *)
Definition values_from (payload : bytes) (parsedData : gmap string bytes) : Prop :=
  forall key value, parsedData !! key = Some value ->
    exists before after, payload = before ++ value ++ after.

(** Check that the two hexadecimal digits written for a byte read back as
    that byte. *)
Definition hex_pair_ok (b : Z) : bool :=
  match padStart2 (Number_toString16 b) with
  | String a (String c EmptyString) =>
      bool_decide (parseInt16 (String a (String c EmptyString)) = Some b)
  | _ => false
  end.

(** "Read a length (applying the 1/2/3-byte BER-TLV length rule: 0x81
    prefixes a 1-byte length, 0x82 prefixes a 2-byte big-endian length,
    otherwise the byte itself is the length)": the rule on the bytes that
    follow a tag, giving the length read ([None] when the bytes end before
    it) and the bytes that follow the length field. *)
Definition read_length (after_tag : bytes) : option Z * bytes :=
  match after_tag with
  | [] => (None, [])
  | b :: r =>
      if b =? 0x81 then (head r, tail r)
      else if b =? 0x82 then (Some (256 * nth 0 r 0 + nth 1 r 0), drop 2 r)
      else (Some b, r)
  end.

(** "Then consume that many value bytes": the value of a field whose
    length field announces [n] bytes, taken from the bytes that follow it,
    is the first [n] of them, or all of them when fewer are there. *)
Definition read_value (n : Z) (after_length : bytes) : bytes :=
  take (Z.to_nat n) after_length.

(** "The matching decode": the 1/2/3-byte length rule applied to the bytes
    produced by the encoder alone. *)
Definition decodeTLVLength (encoded : bytes) : option Z :=
  fst (decodeLength encoded 0).

(** ** Vocabulary of the further properties *)

(** The sixteen lower-case hexadecimal digits. *)
Definition lower_hex_digits : list ascii :=
  list_ascii_of_string "0123456789abcdef".

Definition lower_hex (c : ascii) : bool :=
  existsb (Ascii.eqb c) lower_hex_digits.

(** All code units of a string are lower-case hexadecimal digits. *)
Fixpoint all_lower_hex (s : string) : bool :=
  match s with
  | EmptyString => true
  | String c r => lower_hex c && all_lower_hex r
  end.

(** Check that a pair of digits reads as a byte that is written back as
    the same pair. *)
Definition digit_pair_ok (a b : ascii) : bool :=
  match parseInt16 (String a (String b EmptyString)) with
  | Some v =>
      (0 <=? v) && (v <? 256)
      && String.eqb (padStart2 (Number_toString16 v)) (String a (String b EmptyString))
  | None => false
  end.

(** A field as the parser expects it: the tag byte, the encoded length of
    the value, the value. *)
Definition field (tag : Z) (value : bytes) : bytes :=
  tag :: match encodeTLVLength (len value) with
         | Ok encoded => encoded
         | _ => []
         end ++ value.

(** The six fields of a stored object, in the order of their tags. *)
Definition object_fields (t1 t2 t3 t4 t5 t6 : bytes) : bytes :=
  field 0x41 t1 ++ field 0x42 t2 ++ field 0x43 t3 ++ field 0x44 t4
    ++ field 0x45 t5 ++ field 0x46 t6.

(** The ledger named by the first byte of an asset identifier. *)
Definition ledger_of (asset : bytes) : option Chain.t :=
  match asset with
  | 0x01 :: _ => Some SOLANA
  | 0x02 :: _ => Some ETHEREUM
  | 0x03 :: _ => Some BITCOIN
  | _ => None
  end.

(** A method only adds calls that satisfy [P] to those made on the
    handler, and leaves the ready flag as it is. *)
Definition appends (P : call -> Prop) {T} (m : NfcCore.M T) : Prop :=
  forall s, exists cs, snd (m s) = NfcCore.after s cs /\ Forall P cs.

(** A call other than the release of the technology request. *)
Definition not_release (c : call) : Prop := c <> CancelTechnologyRequest.

(** ** A scripted handler and stand-ins for the external packages *)

Module Fixture.

(** The handler answers the [n]-th exchange with the [n]-th reply of the
    script and loses the tag afterwards; every other call succeeds. *)
Definition scripted (replies : list (result bytes)) : INfcHandler :=
  {| start := fun _ => Ok tt;
     isSupported := fun _ => Ok true;
     requestTechnology := fun _ _ => Ok tt;
     cancelTechnologyRequest := fun _ => Ok tt;
     transceive := fun h _ =>
       default (Throw "Tag was lost.") (replies !! length (NfcCore.sent h));
     setTimeout := fun _ _ => Ok tt |}.

(** Stand-ins whose signature check always gives [verdict]: a certificate
    is its own hexadecimal text, its to-be-signed region is the empty
    SEQUENCE and its subject key is the single byte [04]. *)
Definition stub (verdict : bool) : Crypto :=
  {| X509 := string;
     sha256 := fun b => b;
     p256_verify := fun _ _ _ => Ok verdict;
     readCertHex := fun h => Ok h;
     X509_hex := fun x => x;
     getTLVbyList := fun _ _ _ _ => Ok (Some "3000"%string);
     getSignatureValueHex := fun _ => Ok EmptyString;
     getSPKIValue := fun _ => Ok "04"%string;
     bs58_encode := bytesToHex |}.

Definition accept_all : Crypto := stub true.

(** Modelled from the spec: the builders [selectApplet],
    [readDataWithAttestation], [createAddress] and [signEd25519], whose
    files are missing.  Select-applet is "0x00,0xA4,0x04,0x00,len(AID),AID";
    read-with-attestation is read-object "with an additional
    attestation-key identifier segment"; create-address is
    "0x80,0x01,0x06,0x00,<payload length>,<payload>" with the target id and
    the curve id as payload; sign is "0x80,<sign opcode>,...,<chain id>,
    <raw payload bytes>" (the opcode is not given, 0x03 stands for it). *)
Definition apdu : Apdu :=
  {| selectApplet := fun aid => [0x00; 0xA4; 0x04; 0x00; len aid] ++ aid;
     readDataWithAttestation := fun key att => readData key ++ att;
     createAddress := fun key curve =>
       [0x80; 0x01; 0x06; 0x00; len (key ++ [curve])] ++ key ++ [curve];
     signEd25519 := fun key payload => [0x80; 0x03] ++ key ++ payload |}.

Definition ready : NfcCore.state :=
  {| NfcCore.isReady := true; NfcCore.calls := [] |}.

(** A successful response carrying [body]. *)
Definition success (body : bytes) : result bytes := Ok (body ++ [0x90; 0x00]).

End Fixture.

(** ** Runs on the scripted handler *)

Module Scenario.
Import NfcCore Fixture.

(** Attribute blob of a key object with the canonical policy. *)
Definition key_attributes : bytes :=
  [0x01; 0; 0; 0; 1; 1; 0; 0; 0; 0; 0; 0; 0; 0; 8; 0; 0; 0; 0; 24; 32; 0; 0; 2].

(** Body of an attested read of the key [1,2,3,4]. *)
Definition key_object : bytes :=
  [0x41; 4; 1; 2; 3; 4; 0x42; 24] ++ key_attributes
    ++ [0x43; 0; 0x44; 0; 0x45; 0; 0x46; 0].

(** The same read with the policy bytes 80,0,0,0,2,4,32,0,0. *)
Definition other_policy_object : bytes :=
  [0x41; 4; 1; 2; 3; 4; 0x42; 24]
    ++ [0x01; 0; 0; 0; 1; 1; 0; 0; 0; 0; 0; 0; 0; 0; 80; 0; 0; 0; 2; 4; 32; 0; 0; 2]
    ++ [0x43; 0; 0x44; 0; 0x45; 0; 0x46; 0].

Definition certificate : bytes := [0x00; 0x00; 0x00; 0x00; 0x30; 0x00].

Definition not_found : result bytes := Ok [0x6a; 0x82].

(** No key yet: the first read fails, the key is created, the second
    read succeeds, and there is no asset. *)
Definition unprovisioned : INfcHandler :=
  scripted [success []; success certificate; not_found; success [];
            success key_object; not_found].

(** No key and the create command is refused. *)
Definition create_refused : INfcHandler :=
  scripted [success []; success certificate; not_found; Ok [0x6a; 0x80]].

Definition readPub : bytes := readDataWithAttestation apdu CHAIN_ID ATTESTATION_KEY.
Definition createPub : bytes := createAddress apdu CHAIN_ID (Chain.curve SOLANA).
Definition readAsset : bytes := readDataWithAttestation apdu ASSET_ID ATTESTATION_KEY.

(** State reached when the attestation key [04] has been obtained. *)
Definition key_obtained : state :=
  after ready [RequestTechnology IsoDep; Transceive (selectApplet apdu AID);
               Transceive (readData ATTESTATION_KEY_CERT)].
End Scenario.

(** ** A chip holding a key and an asset *)

Module Provisioned.
Import NfcCore Fixture.

(** Attribute blob of an asset object with the canonical policy. *)
Definition asset_attributes : bytes :=
  [0x00; 0; 0; 0; 11; 1; 0; 0; 0; 0; 0; 0; 0; 0; 8; 0; 0; 0; 0; 0; 32; 0; 0; 1].

(** Asset identifier: the ledger byte of Solana, then the mint. *)
Definition asset : bytes := [0x01; 0xaa; 0xbb].

Definition key_response : bytes :=
  object_fields [1; 2; 3; 4] Scenario.key_attributes [] [] [] [].

Definition asset_response : bytes :=
  object_fields asset asset_attributes [] [] [] [].

(** Both objects are there: no create command is needed. *)
Definition handler : INfcHandler :=
  scripted [success []; success Scenario.certificate; success key_response;
            success asset_response].

(** State reached when the key has been read. *)
Definition key_read : state :=
  after Scenario.key_obtained [Transceive Scenario.readPub].

(** A handler that refuses the applet selection. *)
Definition no_applet : INfcHandler := scripted [Ok [0x6a; 0x82]].

(** A handler whose release always fails. *)
Definition stuck_release (replies : list (result bytes)) : INfcHandler :=
  {| start := fun _ => Ok tt;
     isSupported := fun _ => Ok true;
     requestTechnology := fun _ _ => Ok tt;
     cancelTechnologyRequest := fun _ => Throw "Release failed";
     transceive := fun h _ =>
       default (Throw "Tag was lost.") (replies !! length (NfcCore.sent h));
     setTimeout := fun _ _ => Ok tt |}.

(** A device without NFC. *)
Definition unsupported : INfcHandler :=
  {| start := fun _ => Ok tt;
     isSupported := fun _ => Ok false;
     requestTechnology := fun _ _ => Ok tt;
     cancelTechnologyRequest := fun _ => Ok tt;
     transceive := fun _ _ => Throw "Tag was lost.";
     setTimeout := fun _ _ => Ok tt |}.

Definition fresh : state := {| isReady := false; calls := [] |}.
End Provisioned.

(** ** A chip whose objects do not all verify *)

Module Unverified.
Import NfcCore Fixture.

(** Stand-ins that accept every certificate and accept an object exactly
    when its signature field is the single byte 1. *)
Definition signed_by_one : Crypto :=
  {| X509 := string;
     sha256 := fun b => b;
     p256_verify := fun signature _ _ =>
       match signature with
       | HexString _ => Ok true
       | HexBytes b => Ok (bool_decide (b = [1]))
       end;
     readCertHex := fun h => Ok h;
     X509_hex := fun x => x;
     getTLVbyList := fun _ _ _ _ => Ok (Some "3000"%string);
     getSignatureValueHex := fun _ => Ok EmptyString;
     getSPKIValue := fun _ => Ok "04"%string;
     bs58_encode := bytesToHex |}.

(** The key object with a signature that verifies, and with one that does
    not. *)
Definition good_key : bytes :=
  object_fields [1; 2; 3; 4] Scenario.key_attributes [] [] [] [1].
Definition bad_key : bytes :=
  object_fields [1; 2; 3; 4] Scenario.key_attributes [] [] [] [0].

(** The asset object with a signature that does not verify. *)
Definition bad_asset : bytes :=
  object_fields Provisioned.asset Provisioned.asset_attributes [] [] [] [0].

(** The key is there but its signature is wrong. *)
Definition forged_key : INfcHandler :=
  scripted [success []; success Scenario.certificate; success bad_key;
            success []; success good_key].

(** The key verifies, the asset is there but its signature is wrong. *)
Definition forged_asset : INfcHandler :=
  scripted [success []; success Scenario.certificate; success good_key;
            success bad_asset].
End Unverified.

(** * Properties *)

(** ** Array primitives *)

Lemma len_app {T} (l k : list T) : len (l ++ k) = len l + len k.
Proof. unfold len. rewrite length_app. lia. Qed.

Lemma len_nonneg {T} (l : list T) : 0 <= len l.
Proof. unfold len. lia. Qed.

Lemma get_lookup {T} (l : list T) (i : nat) : get l (Z.of_nat i) = l !! i.
Proof.
  unfold get. destruct (Z.ltb_spec (Z.of_nat i) 0); [lia|].
  by rewrite Nat2Z.id.
Qed.

Lemma at_last_two {T} (body : list T) (a b : T) :
  at_ (body ++ [a; b]) (-2) = Some a /\ at_ (body ++ [a; b]) (-1) = Some b.
Proof.
  unfold at_. simpl. rewrite len_app.
  replace (len body + len [a; b] + -2) with (Z.of_nat (length body))
    by (unfold len; simpl; lia).
  replace (len body + len [a; b] + -1) with (Z.of_nat (length body + 1))
    by (unfold len; simpl; lia).
  rewrite !get_lookup. split.
  - by rewrite lookup_app_r, Nat.sub_diag.
  - rewrite lookup_app_r by lia. by replace (length body + 1 - length body)%nat with 1%nat by lia.
Qed.

Lemma at_last_two_inv {T} (r : list T) (a b : T) :
  at_ r (-2) = Some a -> at_ r (-1) = Some b -> exists body, r = body ++ [a; b].
Proof.
  unfold at_, get. simpl. intros Ha Hb.
  destruct (Z.ltb_spec (len r + -2) 0) as [|H2]; [done|].
  destruct (Z.ltb_spec (len r + -1) 0) as [|H1]; [done|].
  exists (take (length r - 2) r).
  rewrite <- (take_drop (length r - 2) r) at 1. f_equal.
  unfold len in *.
  replace (Z.to_nat (Z.of_nat (length r) + -2)) with (length r - 2)%nat in Ha by lia.
  replace (Z.to_nat (Z.of_nat (length r) + -1)) with (S (length r - 2))%nat in Hb by lia.
  rewrite <- (Nat.add_0_r (length r - 2)) in Ha.
  replace (S (length r - 2)) with (length r - 2 + 1)%nat in Hb by lia.
  rewrite <- lookup_drop in Ha, Hb.
  assert (Hl : length (drop (length r - 2) r) = 2%nat) by (rewrite length_drop; lia).
  destruct (drop (length r - 2) r) as [|x [|y [|z t]]]; simpl in *; try lia.
  congruence.
Qed.

Lemma slice_drop_last_two {T} (body : list T) (a b : T) :
  slice (body ++ [a; b]) 0 (-2) = body.
Proof.
  unfold slice, clamp. rewrite len_app. simpl.
  replace (Z.to_nat (Z.min 0 _)) with 0%nat by (unfold len; lia).
  replace (Z.to_nat _) with (length body) by (unfold len; simpl; lia).
  by rewrite drop_0, take_app_length.
Qed.

(** ** C6: the status check *)

Section StatusCheck.
Import NfcCore.
Context (nfcHandler : INfcHandler).

(** An exchange always records its command, whatever comes back. *)
Lemma transceiveAndCheck_state command errorMsg s :
  snd (transceiveAndCheck nfcHandler command errorMsg s) = after s [Transceive command].
Proof.
  unfold transceiveAndCheck, bindM, invoke, after. simpl.
  destruct (transceive nfcHandler (calls s) command) as [r| |]; try done.
  by destruct (_ || _).
Qed.

Lemma transceiveAndCheck_success command errorMsg s body :
  transceive nfcHandler (calls s) command = Ok (body ++ [0x90; 0x00]) ->
  transceiveAndCheck nfcHandler command errorMsg s
  = (Ok body, after s [Transceive command]).
Proof.
  intros Hr. unfold transceiveAndCheck, bindM, invoke. simpl. rewrite Hr.
  destruct (at_last_two body 0x90 0x00) as [-> ->].
  rewrite !bool_decide_eq_true_2 by done. simpl.
  unfold ret. by rewrite slice_drop_last_two.
Qed.

Lemma transceiveAndCheck_failure command errorMsg s response :
  transceive nfcHandler (calls s) command = Ok response ->
  (forall body, response <> body ++ [0x90; 0x00]) ->
  transceiveAndCheck nfcHandler command errorMsg s
  = (Throw errorMsg, after s [Transceive command]).
Proof.
  intros Hr Hno. unfold transceiveAndCheck, bindM, invoke. simpl. rewrite Hr.
  destruct (bool_decide (at_ response (-2) = Some 0x90)) eqn:E2;
    destruct (bool_decide (at_ response (-1) = Some 0x00)) eqn:E1; try done.
  apply bool_decide_eq_true_1 in E2, E1.
  destruct (at_last_two_inv _ _ _ E2 E1) as [body ->]. by destruct (Hno body).
Qed.

(** C6.  In every command exchange whose transport call returns a
    response: if the response ends in 0x90,0x00 the checked exchange
    returns exactly the response without those two bytes and does not
    throw; if it ends in anything else, responses shorter than two bytes
    included, it throws the error carrying the caller's description. *)
Theorem transceiveAndCheck_status command errorMsg s response :
  transceive nfcHandler (calls s) command = Ok response ->
  (forall body, response = body ++ [0x90; 0x00] ->
     fst (transceiveAndCheck nfcHandler command errorMsg s) = Ok body)
  /\ ((forall body, response <> body ++ [0x90; 0x00]) ->
      fst (transceiveAndCheck nfcHandler command errorMsg s) = Throw errorMsg)
  /\ ((length response < 2)%nat ->
      fst (transceiveAndCheck nfcHandler command errorMsg s) = Throw errorMsg).
Proof.
  intros Hr. split; [|split].
  - intros body ->. by rewrite (transceiveAndCheck_success _ _ _ _ Hr).
  - intros Hno. by rewrite (transceiveAndCheck_failure _ _ _ _ Hr Hno).
  - intros Hshort. rewrite (transceiveAndCheck_failure _ _ _ _ Hr); [done|].
    intros body ->. rewrite length_app in Hshort. simpl in Hshort. lia.
Qed.

End StatusCheck.

Lemma transceiveAndCheck_status_witness :
  fst (NfcCore.transceiveAndCheck (Fixture.scripted [Fixture.success [1; 2]])
         [0x80] "Signing Transaction failed" Fixture.ready) = Ok [1; 2]
  /\ fst (NfcCore.transceiveAndCheck (Fixture.scripted [Ok [0x6a; 0x82]])
         [0x80] "Signing Transaction failed" Fixture.ready)
     = Throw "Signing Transaction failed".
Proof.
  split.
  - apply (proj1 (transceiveAndCheck_status
                      (Fixture.scripted [Fixture.success [1; 2]])
                      [0x80] "Signing Transaction failed" Fixture.ready
                      [1; 2; 0x90; 0x00] eq_refl)).
    reflexivity.
  - apply (proj1 (proj2 (transceiveAndCheck_status
                      (Fixture.scripted [Ok [0x6a; 0x82]])
                      [0x80] "Signing Transaction failed" Fixture.ready
                      [0x6a; 0x82] eq_refl))).
    intros [|x [|y [|z body]]]; discriminate.
Defined.

(** ** C8: TLV length encoding *)

Lemma ToInt32_small z : - 2 ^ 31 <= z < 2 ^ 31 -> ToInt32 z = z.
Proof.
  intros H. unfold ToInt32.
  rewrite Z.mod_small; lia.
Qed.

Lemma land_shiftl8_byte hi lo : is_byte lo -> Z.land (Z.shiftl hi 8) lo = 0.
Proof.
  unfold is_byte. intros Hlo.
  apply Z.bits_inj'. intros n Hn. rewrite Z.land_spec, Z.bits_0.
  destruct (Z.ltb_spec n 8).
  - by rewrite Z.shiftl_spec_low by lia.
  - rewrite (Z.bits_above_log2 lo n); [by rewrite andb_false_r|lia|].
    destruct (Z.eq_dec lo 0) as [->|]; [simpl; lia|].
    apply Z.log2_lt_pow2; [lia|].
    apply Z.lt_le_trans with (2 ^ 8); [lia|]. apply Z.pow_le_mono_r; lia.
Qed.

(** On bytes the two-byte length is the big-endian value. *)
Lemma or32_shl32_bytes hi lo :
  is_byte hi -> is_byte lo -> or32 (shl32 hi 8) lo = 256 * hi + lo.
Proof.
  intros Hhi Hlo. pose proof (land_shiftl8_byte hi lo Hlo) as Hland.
  unfold is_byte, or32, shl32 in *.
  rewrite (ToInt32_small hi) by lia.
  rewrite Z.shiftl_mul_pow2 in * by lia.
  rewrite !(ToInt32_small (hi * 2 ^ 8)) by lia.
  rewrite (ToInt32_small lo) by lia.
  rewrite <- Z.lxor_lor, <- Z.add_nocarry_lxor by done. lia.
Qed.

Lemma byte_split n :
  0 <= n <= 65535 ->
  is_byte (Z.land (Z.shiftr n 8) 0xff) /\ is_byte (Z.land n 0xff)
  /\ 256 * Z.land (Z.shiftr n 8) 0xff + Z.land n 0xff = n.
Proof.
  intros Hn. unfold is_byte.
  change 0xff with (Z.ones 8). rewrite !Z.land_ones, Z.shiftr_div_pow2 by lia.
  change (2 ^ 8) with 256.
  rewrite (Z.mod_small (n / 256)) by (split; [apply Z.div_pos; lia | apply Z.div_lt_upper_bound; lia]).
  pose proof (Z.mod_pos_bound n 256). pose proof (Z.div_mod n 256).
  assert (0 <= n / 256 < 256) by (split; [apply Z.div_pos; lia | apply Z.div_lt_upper_bound; lia]).
  lia.
Qed.

(** The length rule read back at the position that follows any prefix. *)
Lemma decodeLength_encode n encoded prefix rest :
  0 <= n <= 65535 ->
  encodeTLVLength n = Ok encoded ->
  decodeLength (prefix ++ encoded ++ rest) (len prefix)
  = (Some n, len prefix + len encoded).
Proof.
  intros Hn. unfold encodeTLVLength, decodeLength.
  assert (Hget : forall (k : nat) (l : bytes),
    get (prefix ++ l) (len prefix + Z.of_nat k) = l !! k).
  { intros k l. unfold len. rewrite <- Nat2Z.inj_add, get_lookup.
    rewrite lookup_app_r by lia. f_equal. lia. }
  pose proof (Hget 0%nat) as H0. pose proof (Hget 1%nat) as H1.
  pose proof (Hget 2%nat) as H2.
  rewrite Z.add_0_r in H0. change (Z.of_nat 1) with 1 in H1.
  change (Z.of_nat 2) with 2 in H2.
  destruct (Z.leb_spec n 127).
  { intros [= <-]. rewrite H0. simpl.
    destruct (Z.eqb_spec n 0x81); [lia|]. destruct (Z.eqb_spec n 0x82); [lia|].
    done. }
  destruct (Z.leb_spec n 255).
  { intros [= <-]. rewrite H0. simpl. rewrite H1. simpl.
    f_equal. unfold len. simpl. lia. }
  destruct (Z.leb_spec n 65535); [|lia].
  intros [= <-]. rewrite H0. simpl. rewrite H1.
  rewrite <- Z.add_assoc. change (1 + 1) with 2. rewrite H2. simpl.
  destruct (byte_split n Hn) as (Hhi & Hlo & Heq).
  rewrite or32_shl32_bytes, Heq by done.
  f_equal. unfold len. simpl. lia.
Qed.

(** C8.  For every n in [0, 65535] the encoder returns bytes from which the
    1/2/3-byte length rule of the payload parser recovers n, both on the
    encoded bytes alone and where they stand in a payload, right after the
    tag byte (the rule then points at the first value byte); for every
    n > 65535 the encoder throws its length error. *)
Theorem encodeTLVLength_roundtrip n :
  (0 <= n <= 65535 ->
     exists encoded,
       encodeTLVLength n = Ok encoded
       /\ decodeTLVLength encoded = Some n
       /\ forall tag rest,
            decodeLength (tag :: encoded ++ rest) 1 = (Some n, 1 + len encoded))
  /\ (65535 < n ->
      encodeTLVLength n = Throw "Length exceeds maximum supported size of 65535.").
Proof.
  split.
  - intros Hn.
    assert (exists encoded, encodeTLVLength n = Ok encoded) as [encoded He].
    { unfold encodeTLVLength. repeat case_match; try by eexists. lia. }
    exists encoded. split; [done|]. split.
    + unfold decodeTLVLength.
      pose proof (decodeLength_encode n encoded [] [] Hn He) as H.
      simpl in H. change (len []) with 0 in H. rewrite app_nil_r in H. by rewrite H.
    + intros tag rest. apply (decodeLength_encode n encoded [tag] rest Hn He).
  - intros Hn. unfold encodeTLVLength.
    destruct (Z.leb_spec n 127); [lia|]. destruct (Z.leb_spec n 255); [lia|].
    destruct (Z.leb_spec n 65535); [lia|]. done.
Qed.

Lemma encodeTLVLength_roundtrip_witness :
  (exists encoded,
     encodeTLVLength 300 = Ok encoded
     /\ decodeTLVLength encoded = Some 300
     /\ forall tag rest,
          decodeLength (tag :: encoded ++ rest) 1 = (Some 300, 1 + len encoded))
  /\ encodeTLVLength 65536 = Throw "Length exceeds maximum supported size of 65535.".
Proof.
  split.
  - apply (proj1 (encodeTLVLength_roundtrip 300)). lia.
  - apply (proj2 (encodeTLVLength_roundtrip 65536)). lia.
Defined.

(** ** C10: the payload parser on arbitrary bytes *)

Lemma get_Some {T} (l : list T) i x :
  get l i = Some x -> 0 <= i < len l /\ l !! Z.to_nat i = Some x.
Proof.
  unfold get, len. destruct (Z.ltb_spec i 0); [done|]. intros Hx.
  split; [|done]. apply lookup_lt_Some in Hx. lia.
Qed.

Lemma get_None_ge {T} (l : list T) i : len l <= i -> get l i = None.
Proof.
  unfold get, len. intros Hi. destruct (Z.ltb_spec i 0); [done|].
  apply lookup_ge_None. lia.
Qed.

Lemma get_byte payload i b :
  Forall is_byte payload -> get payload i = Some b -> is_byte b.
Proof.
  intros Hall Hb. apply get_Some in Hb as [_ Hb].
  eapply Forall_lookup_1; eauto.
Qed.

Lemma int_of_get_byte payload i :
  Forall is_byte payload -> is_byte (int_of (get payload i)).
Proof.
  intros Hall. destruct (get payload i) as [b|] eqn:Hb; simpl.
  - eapply get_byte; eauto.
  - unfold is_byte. lia.
Qed.

(** On bytes a decoded length is never negative and the rule moves
    forward. *)
Lemma decodeLength_bytes payload index length index' :
  Forall is_byte payload ->
  decodeLength payload index = (length, index') ->
  index < index' /\ (forall l, length = Some l -> 0 <= l).
Proof.
  intros Hall. unfold decodeLength.
  destruct (get payload index) as [l0|] eqn:H0.
  - pose proof (get_byte _ _ _ Hall H0) as Hb0.
    destruct (Z.eqb_spec l0 0x81).
    { intros [= <- <-]. split; [lia|]. intros l Hl.
      apply (get_byte _ _ _ Hall) in Hl. unfold is_byte in Hl. lia. }
    destruct (Z.eqb_spec l0 0x82).
    { intros [= <- <-]. split; [lia|]. intros l [= <-].
      rewrite or32_shl32_bytes by apply int_of_get_byte, Hall.
      pose proof (int_of_get_byte payload (index + 1) Hall).
      pose proof (int_of_get_byte payload (index + 1 + 1) Hall).
      unfold is_byte in *. lia. }
    intros [= <- <-]. split; [lia|]. intros l [= <-]. unfold is_byte in Hb0. lia.
  - intros [= <- <-]. split; [lia|]. done.
Qed.

(** Every slice is a run of consecutive elements of the array. *)
Lemma slice_infix {T} (l : list T) i j :
  exists before after, l = before ++ slice l i j ++ after.
Proof.
  unfold slice.
  exists (take (Z.to_nat (clamp (len l) i)) l).
  eexists. by rewrite !take_drop.
Qed.

Lemma parse_step_bytes payload index parsedData next parsedData' :
  Forall is_byte payload ->
  values_from payload parsedData ->
  parse_step payload index parsedData = (next, parsedData') ->
  values_from payload parsedData'
  /\ (forall index', next = Some index' -> index + 2 <= index').
Proof.
  intros Hall Hvals. unfold parse_step.
  destruct (decodeLength payload (index + 1)) as [length index1] eqn:Hd.
  apply (decodeLength_bytes _ _ _ _ Hall) in Hd as [Hlt Hpos].
  intros [= <- <-]. split.
  - destruct (get payload index ≫= tagKey) as [key|]; [|done].
    intros key' value'. rewrite lookup_insert. case_decide as Hk.
    + intros [= <-]. destruct length; apply slice_infix.
    + by apply Hvals.
  - destruct length as [l|]; [|done]. simpl. intros index' [= <-].
    specialize (Hpos l eq_refl). lia.
Qed.

Lemma parse_loop_bytes payload fuel : forall index parsedData,
  Forall is_byte payload ->
  values_from payload parsedData ->
  len payload - index <= Z.of_nat fuel ->
  exists parsed,
    parse_loop fuel payload index parsedData = Ok parsed
    /\ values_from payload parsed.
Proof.
  induction fuel as [|fuel IH]; intros index parsedData Hall Hvals Hfuel; simpl.
  - destruct (Z.ltb_spec index (len payload)); [lia|]. by exists parsedData.
  - destruct (Z.ltb_spec index (len payload)); [|by exists parsedData].
    destruct (parse_step payload index parsedData) as [next parsedData'] eqn:Hs.
    apply parse_step_bytes in Hs as [Hvals' Hnext]; [|done..].
    destruct next as [index'|]; [|by exists parsedData'].
    specialize (Hnext index' eq_refl).
    apply IH; [done..|lia].
Qed.

(** A result reached with some fuel is the result with more fuel. *)
Lemma parse_loop_more_fuel payload fuel : forall index parsedData parsed,
  parse_loop fuel payload index parsedData = Ok parsed ->
  parse_loop (S fuel) payload index parsedData = Ok parsed.
Proof.
  induction fuel as [|fuel IH]; intros index parsedData parsed.
  - simpl. by destruct (index <? len payload).
  - intros H. cbn [parse_loop] in *.
    destruct (index <? len payload); [|done].
    destruct (parse_step payload index parsedData) as [[index'|] parsedData']; [|done].
    by apply IH.
Qed.

(** A payload made of one tag, an encoded length and at most that many
    value bytes: the value is what is present. *)
Lemma parse_single tag n encoded value :
  0 <= n <= 65535 ->
  encodeTLVLength n = Ok encoded ->
  len value <= n ->
  parseSecureObjectPayload (tag :: encoded ++ value)
  = Ok match tagKey tag with
       | Some key => {[ key := value ]}
       | None => ∅
       end.
Proof.
  intros Hn He Hv. unfold parseSecureObjectPayload.
  set (payload := tag :: encoded ++ value).
  assert (Hlen : len payload = 1 + len encoded + len value).
  { unfold payload, len. simpl. rewrite length_app. lia. }
  pose proof (len_nonneg encoded). pose proof (len_nonneg value).
  cbn [parse_loop]. destruct (Z.ltb_spec 0 (len payload)); [|lia].
  unfold parse_step.
  change (0 + 1) with 1.
  pose proof (decodeLength_encode n encoded [tag] value Hn He) as Hd.
  change ([tag] ++ encoded ++ value) with payload in Hd.
  change (len [tag]) with 1 in Hd. rewrite Hd. cbn [fmap option_fmap option_map].
  assert (Hslice : slice payload (1 + len encoded) (1 + len encoded + n) = value).
  { unfold slice, clamp. rewrite Hlen.
    destruct (Z.ltb_spec (1 + len encoded) 0); [lia|].
    destruct (Z.ltb_spec (1 + len encoded + n) 0); [lia|].
    rewrite (Z.min_l (1 + len encoded)), (Z.min_r (1 + len encoded + n)) by lia.
    replace (Z.to_nat (1 + len encoded)) with (length (tag :: encoded)) by (unfold len; simpl; lia).
    replace (Z.to_nat _) with (length value) by (unfold len; simpl; lia).
    unfold payload. change (tag :: encoded ++ value) with ((tag :: encoded) ++ value).
    by rewrite drop_app_length, firstn_all. }
  rewrite Hslice.
  change (get payload 0) with (Some tag). simpl.
  destruct (Z.ltb_spec (1 + len encoded + n) (len payload)); [lia|].
  destruct (tagKey tag); [|done]. by rewrite insert_empty.
Qed.

Lemma slice_take_drop {T} (l : list T) (i j : nat) :
  slice l (Z.of_nat i) (Z.of_nat j) = take (j - i) (drop i l).
Proof.
  unfold slice, clamp, len.
  destruct (Z.ltb_spec (Z.of_nat i) 0); [lia|].
  destruct (Z.ltb_spec (Z.of_nat j) 0); [lia|].
  destruct (Nat.le_gt_cases i (length l)) as [Hi|Hi].
  - rewrite (Z.min_l (Z.of_nat i)) by lia. rewrite Nat2Z.id.
    destruct (Nat.le_gt_cases j (length l)).
    + rewrite Z.min_l by lia. f_equal. lia.
    + rewrite Z.min_r by lia.
      rewrite !take_ge; [done| |]; rewrite length_drop; lia.
  - rewrite (Z.min_r (Z.of_nat i)) by lia. rewrite Nat2Z.id.
    by rewrite !drop_ge, !take_nil by lia.
Qed.

Lemma get_app_shift {T} (pre rest : list T) j :
  0 <= j -> get (pre ++ rest) (len pre + j) = get rest j.
Proof.
  intros Hj. unfold get, len.
  destruct (Z.ltb_spec (Z.of_nat (length pre) + j) 0); [lia|].
  destruct (Z.ltb_spec j 0); [lia|].
  rewrite lookup_app_r by lia. f_equal. lia.
Qed.

Lemma slice_app_shift {T} (pre rest : list T) a b :
  0 <= a -> 0 <= b ->
  slice (pre ++ rest) (len pre + a) (len pre + b) = slice rest a b.
Proof.
  intros Ha Hb. unfold slice, clamp. rewrite len_app.
  pose proof (len_nonneg pre). pose proof (len_nonneg rest).
  destruct (Z.ltb_spec (len pre + a) 0); [lia|].
  destruct (Z.ltb_spec (len pre + b) 0); [lia|].
  destruct (Z.ltb_spec a 0); [lia|]. destruct (Z.ltb_spec b 0); [lia|].
  replace (Z.min (len pre + a) (len pre + len rest)) with (len pre + Z.min a (len rest)) by lia.
  replace (Z.min (len pre + b) (len pre + len rest)) with (len pre + Z.min b (len rest)) by lia.
  replace (Z.to_nat (len pre + Z.min a (len rest)))
    with (length pre + Z.to_nat (Z.min a (len rest)))%nat by (unfold len in *; lia).
  rewrite drop_app_add'; [|done]. f_equal. lia.
Qed.

Lemma slice_empty_stop {T} (l : list T) a : 0 <= a -> slice l a 0 = [].
Proof.
  intros Ha. unfold slice, clamp. pose proof (len_nonneg l).
  destruct (Z.ltb_spec a 0); [lia|]. simpl.
  rewrite (Z.min_l 0) by lia.
  replace (Z.to_nat (0 - Z.min a (len l))) with 0%nat by lia. done.
Qed.

Lemma decodeLength_shift (pre rest : bytes) i :
  0 <= i ->
  decodeLength (pre ++ rest) (len pre + i)
  = (fst (decodeLength rest i), len pre + snd (decodeLength rest i)).
Proof.
  intros Hi. unfold decodeLength.
  rewrite <- !Z.add_assoc, !get_app_shift by lia.
  destruct (get rest i) as [l|]; [|simpl; f_equal; lia].
  destruct (l =? 0x81); [simpl; f_equal; lia|].
  destruct (l =? 0x82); simpl; f_equal; lia.
Qed.

Lemma parse_step_shift (pre rest : bytes) i m :
  Forall is_byte rest -> 0 <= i ->
  parse_step (pre ++ rest) (len pre + i) m
  = ((fun x => len pre + x) <$> fst (parse_step rest i m), snd (parse_step rest i m)).
Proof.
  intros Hall Hi. unfold parse_step.
  rewrite <- Z.add_assoc, decodeLength_shift, get_app_shift by lia.
  destruct (decodeLength rest (i + 1)) as [length j] eqn:Hd. cbn [fst snd].
  apply (decodeLength_bytes _ _ _ _ Hall) in Hd as [Hj Hpos].
  destruct length as [l|]; cbn [fst snd fmap option_fmap option_map].
  - specialize (Hpos l eq_refl).
    by rewrite <- Z.add_assoc, slice_app_shift by lia.
  - pose proof (len_nonneg pre). by rewrite !slice_empty_stop by lia.
Qed.

Lemma parse_loop_shift (pre rest : bytes) fuel : forall i m,
  Forall is_byte rest -> 0 <= i ->
  parse_loop fuel (pre ++ rest) (len pre + i) m = parse_loop fuel rest i m.
Proof.
  induction fuel as [|fuel IH]; intros i m Hall Hi; cbn [parse_loop];
    rewrite len_app;
    (destruct (Z.ltb_spec (len pre + i) (len pre + len rest));
     destruct (Z.ltb_spec i (len rest)); try lia; try done).
  rewrite parse_step_shift by done.
  destruct (parse_step rest i m) as [next m'] eqn:Hs. cbn [fst snd].
  assert (Hvals : values_from rest ∅) by (by intros ? ?; rewrite lookup_empty).
  destruct next as [i'|]; cbn [fmap option_fmap option_map]; [|done].
  apply IH; [done|].
  unfold parse_step in Hs.
  destruct (decodeLength rest (i + 1)) as [length j] eqn:Hd.
  apply (decodeLength_bytes _ _ _ _ Hall) in Hd as [Hj Hpos].
  injection Hs as Hi' _. destruct length as [l|]; [|done].
  injection Hi' as <-. specialize (Hpos l eq_refl). lia.
Qed.

(** What the loop adds does not depend on what the map held before. *)
Lemma parse_loop_union payload fuel : forall i (m1 m2 : gmap string bytes),
  parse_loop fuel payload i (m1 ∪ m2)
  = bind (parse_loop fuel payload i m1) (fun r => Ok (r ∪ m2)).
Proof.
  induction fuel as [|fuel IH]; intros i m1 m2; cbn [parse_loop].
  - by destruct (i <? len payload).
  - destruct (i <? len payload); [|done].
    unfold parse_step. destruct (decodeLength payload (i + 1)) as [length j].
    destruct (get payload i ≫= tagKey) as [key|].
    + rewrite insert_union_l. by destruct length; [apply IH|].
    + by destruct length; [apply IH|].
Qed.

Lemma parse_loop_fuel_le payload fuel fuel' index parsedData parsed :
  (fuel <= fuel')%nat ->
  parse_loop fuel payload index parsedData = Ok parsed ->
  parse_loop fuel' payload index parsedData = Ok parsed.
Proof.
  induction 1 as [|fuel' _ IH]; [done|].
  intros H. by apply parse_loop_more_fuel, IH.
Qed.

(** The length rule of the parser, read just after the first byte, is the
    length rule of the specification on the bytes that follow it. *)
Lemma decodeLength_read_length (after_tag : bytes) :
  Forall is_byte after_tag ->
  exists j : nat,
    decodeLength after_tag 0
    = (fst (read_length after_tag), Z.of_nat j)
    /\ snd (read_length after_tag) = drop j after_tag.
Proof.
  intros Hall. destruct after_tag as [|b r].
  - exists 1%nat. split; reflexivity.
  - unfold decodeLength, read_length.
    change (get (b :: r) 0) with (Some b). cbv beta iota zeta.
    destruct (b =? 0x81) eqn:H81; [|destruct (b =? 0x82) eqn:H82].
    + exists 2%nat. split; [|by destruct r].
      cbn [fst]. f_equal. by destruct r.
    + exists 3%nat. split; [|by destruct r as [|? [|? ?]]].
      cbn [fst]. f_equal. f_equal.
      rewrite or32_shl32_bytes by (apply int_of_get_byte; exact Hall).
      by destruct r as [|? [|? ?]].
    + exists 1%nat. split; reflexivity.
Qed.

Lemma parseSecureObjectPayload_nil : parseSecureObjectPayload [] = Ok ∅.
Proof. reflexivity. Qed.

(** The parser on a non-empty payload: one field is read off the front and
    the rest is parsed the same way; what the rest stores comes later and
    wins over the first field. *)
Lemma parseSecureObjectPayload_cons tag after_tag :
  Forall is_byte (tag :: after_tag) ->
  parseSecureObjectPayload (tag :: after_tag)
  = match read_length after_tag with
    | (Some n, after_length) =>
        bind (parseSecureObjectPayload (drop (Z.to_nat n) after_length))
          (fun later =>
             Ok (match tagKey tag with
                 | Some key => later ∪ {[ key := read_value n after_length ]}
                 | None => later
                 end))
    | (None, _) =>
        Ok (match tagKey tag with
            | Some key => {[ key := [] ]}
            | None => ∅
            end)
    end.
Proof.
  intros Hall. pose proof (Forall_inv_tail Hall) as Hrest.
  destruct (decodeLength_read_length after_tag Hrest) as (j & Hdec & Hafter).
  set (payload := tag :: after_tag).
  assert (Hpayload : payload = [tag] ++ after_tag) by reflexivity.
  assert (Hstep : parse_step payload 0 ∅
    = ((fun l => 1 + Z.of_nat j + l) <$> fst (read_length after_tag),
       match tagKey tag with
       | Some key =>
           {[ key := match fst (read_length after_tag) with
                     | Some n => read_value n (snd (read_length after_tag))
                     | None => []
                     end ]}
       | None => ∅
       end)).
  { unfold parse_step.
    change (get payload 0) with (Some tag).
    rewrite Hpayload.
    change (0 + 1) with (len [tag] + 0).
    rewrite decodeLength_shift by lia. rewrite Hdec. cbn [fst snd].
    change (len [tag]) with 1.
    f_equal.
    change (Some tag ≫= tagKey) with (tagKey tag).
    destruct (tagKey tag) as [key|]; [|reflexivity].
    rewrite insert_empty. f_equal.
    destruct (fst (read_length after_tag)) as [n|] eqn:Hn.
    - assert (0 <= n).
      { destruct (decodeLength_bytes after_tag 0 _ _ Hrest Hdec) as [_ Hpos].
        by apply Hpos. }
      change 1 with (len [tag]).
      rewrite <- Z.add_assoc.
      rewrite slice_app_shift by lia.
      replace (Z.of_nat j + n) with (Z.of_nat (j + Z.to_nat n)) by lia.
      rewrite slice_take_drop. rewrite Hafter. unfold read_value.
      f_equal. lia.
    - apply slice_empty_stop. lia. }
  unfold parseSecureObjectPayload at 1.
  cbn [parse_loop].
  replace (0 <? len payload) with true
    by (symmetry; apply Z.ltb_lt; unfold len, payload; simpl; lia).
  rewrite Hstep.
  destruct (read_length after_tag) as [[n|] after_length] eqn:Hread;
    cbn [fst snd fmap option_fmap option_map]; [|reflexivity].
  cbn [snd] in Hafter. subst after_length.
  assert (0 <= n).
  { destruct (decodeLength_bytes after_tag 0 _ _ Hrest Hdec) as [_ Hpos].
    by apply Hpos. }
  set (m1 := match tagKey tag with
             | Some key => {[ key := read_value n (drop j after_tag) ]}
             | None => (∅ : gmap string bytes)
             end).
  set (rest := drop (Z.to_nat n) (drop j after_tag)).
  assert (Hrest' : Forall is_byte rest).
  { unfold rest. by do 2 apply Forall_drop. }
  destruct (parse_loop_bytes rest (length rest) 0 ∅ Hrest') as (parsed & Hp & _).
  { intros key value. by rewrite lookup_empty. }
  { unfold len. lia. }
  assert (Hgoal : parse_loop (length payload) payload (1 + Z.of_nat j + n) m1
                  = Ok (parsed ∪ m1)).
  { destruct (decide (1 + Z.of_nat j + n <= len payload)) as [Hin|Hout].
    - set (k := (1 + j + Z.to_nat n)%nat).
      rewrite <- (take_drop k payload).
      replace (1 + Z.of_nat j + n) with (len (take k payload) + 0)
        by (unfold len; rewrite length_take; unfold len in Hin; lia).
      assert (Hd : drop k payload = rest).
      { unfold k, payload, rest. simpl. by rewrite drop_drop, Nat.add_comm. }
      rewrite Hd.
      rewrite parse_loop_shift by (done || lia).
      rewrite <- (left_id_L ∅ (∪) m1).
      rewrite parse_loop_union.
      rewrite (parse_loop_fuel_le rest (length rest) _ 0 ∅ parsed); [|..|exact Hp].
      + cbn [bind]. by rewrite (left_id_L ∅ (∪) m1).
      + rewrite <- Hd. rewrite length_drop. rewrite length_app, length_take, length_drop. lia.
    - assert (rest = []) as Hnil.
      { unfold rest. rewrite drop_drop. apply drop_ge.
        unfold len, payload in Hout. simpl in Hout. lia. }
      rewrite Hnil in Hp. injection Hp as <-.
      rewrite (left_id_L ∅ (∪) m1).
      destruct (length payload); cbn [parse_loop];
        by replace (1 + Z.of_nat j + n <? len payload) with false
          by (symmetry; apply Z.ltb_ge; lia). }
  rewrite Hgoal. fold rest. unfold parseSecureObjectPayload.
  rewrite (parse_loop_fuel_le rest (length rest) _ 0 ∅ parsed); [|lia|exact Hp].
  cbn [bind]. unfold m1. destruct (tagKey tag); [reflexivity|].
  by rewrite (right_id_L ∅ (∪)).
Qed.

(** The two equations above leave no freedom: a function on byte sequences
    that satisfies them is the parser. *)
Lemma parse_equations_determine (f : bytes -> result (gmap string bytes)) :
  f [] = Ok ∅ ->
  (forall tag after_tag,
     Forall is_byte (tag :: after_tag) ->
     f (tag :: after_tag)
     = match read_length after_tag with
       | (Some n, after_length) =>
           bind (f (drop (Z.to_nat n) after_length))
             (fun later =>
                Ok (match tagKey tag with
                    | Some key => later ∪ {[ key := read_value n after_length ]}
                    | None => later
                    end))
       | (None, _) =>
           Ok (match tagKey tag with
               | Some key => {[ key := [] ]}
               | None => ∅
               end)
       end) ->
  forall payload, Forall is_byte payload ->
    f payload = parseSecureObjectPayload payload.
Proof.
  intros Hnil Hcons payload.
  remember (length payload) as size eqn:Hsize.
  revert payload Hsize.
  induction size as [size IH] using lt_wf_ind.
  intros [|tag after_tag] Hsize Hall; [exact Hnil|].
  rewrite Hcons, parseSecureObjectPayload_cons by exact Hall.
  pose proof (Forall_inv_tail Hall) as Hrest.
  destruct (decodeLength_read_length after_tag Hrest) as (j & _ & Hafter).
  destruct (read_length after_tag) as [[n|] after_length]; [|reflexivity].
  cbn [snd] in Hafter. subst after_length.
  rewrite (IH (length (drop (Z.to_nat n) (drop j after_tag)))
             ltac:(rewrite !length_drop; simpl in Hsize; lia) _ eq_refl);
    [reflexivity|].
  by do 2 apply Forall_drop.
Qed.

(** The reading of two fields in a row, the second cut short by the end of
    the input. *)
Example parseSecureObjectPayload_two_fields :
  parseSecureObjectPayload [0x41; 1; 7; 0x42; 5; 9]
  = Ok {[ "TAG_1"%string := [7]; "TAG_2"%string := [9] ]}.
Proof. vm_compute. reflexivity. Qed.

(** C10.  On every finite byte sequence, whatever its tags and however its
    length fields or values are cut short, the parser terminates with a
    mapping and raises nothing; every stored value is a run of bytes of
    the input, and when the input ends before the declared length of a
    value the value holds just the bytes that are there.  The mapping is
    the one the field-by-field reading gives, for every field and every
    encoding of its length: the empty input gives the empty mapping; on a
    tag followed by [after_tag], with [read_length after_tag] the length
    and the bytes after the length field, the value stored under the tag
    is [read_value], the first [n] of those bytes or all of them when
    fewer are there, and the fields read from the bytes after the value
    are stored over it; when the input ends before the length the empty
    value is stored and the reading stops. *)
Theorem parseSecureObjectPayload_total payload :
  Forall is_byte payload ->
  (exists parsed,
     parseSecureObjectPayload payload = Ok parsed
     /\ forall key value, parsed !! key = Some value ->
          exists before after, payload = before ++ value ++ after)
  /\ (forall tag key n encoded value,
        payload = tag :: encoded ++ value ->
        tagKey tag = Some key ->
        encodeTLVLength n = Ok encoded ->
        len value <= n <= 65535 ->
        parseSecureObjectPayload payload = Ok {[ key := value ]})
  /\ (payload = [] -> parseSecureObjectPayload payload = Ok ∅)
  /\ (forall tag after_tag,
        payload = tag :: after_tag ->
        parseSecureObjectPayload payload
        = match read_length after_tag with
          | (Some n, after_length) =>
              bind (parseSecureObjectPayload (drop (Z.to_nat n) after_length))
                (fun later =>
                   Ok (match tagKey tag with
                       | Some key =>
                           later ∪ {[ key := read_value n after_length ]}
                       | None => later
                       end))
          | (None, _) =>
              Ok (match tagKey tag with
                  | Some key => {[ key := [] ]}
                  | None => ∅
                  end)
          end).
Proof.
  intros Hall. split; [|split; [|split]].
  - apply parse_loop_bytes; [done| |unfold len; lia].
    intros key value. by rewrite lookup_empty.
  - intros tag key n encoded value -> Hkey He Hn.
    pose proof (len_nonneg value).
    rewrite (parse_single tag n encoded value) by (done || lia).
    by rewrite Hkey.
  - by intros ->.
  - intros tag after_tag ->. by apply parseSecureObjectPayload_cons.
Qed.

Lemma parseSecureObjectPayload_total_witness :
  parseSecureObjectPayload [0x41; 5; 1; 2] = Ok {[ "TAG_1"%string := [1; 2] ]}
  /\ parseSecureObjectPayload [0x41; 1; 7; 0x42; 0x81; 5; 9]
     = bind (parseSecureObjectPayload [0x42; 0x81; 5; 9])
         (fun later => Ok (later ∪ {[ "TAG_1"%string := [7] ]}))
  /\ parseSecureObjectPayload [0x42; 0x81; 5; 9]
     = bind (parseSecureObjectPayload [])
         (fun later => Ok (later ∪ {[ "TAG_2"%string := [9] ]})).
Proof.
  assert (Hall : Forall is_byte [0x41; 5; 1; 2])
    by (repeat constructor; unfold is_byte; lia).
  assert (Hall' : Forall is_byte [0x41; 1; 7; 0x42; 0x81; 5; 9])
    by (repeat constructor; unfold is_byte; lia).
  assert (Hall'' : Forall is_byte [0x42; 0x81; 5; 9])
    by (repeat constructor; unfold is_byte; lia).
  split; [|split].
  - apply (proj1 (proj2 (parseSecureObjectPayload_total [0x41; 5; 1; 2] Hall))
             0x41 "TAG_1"%string 5 [5] [1; 2]);
      [reflexivity | reflexivity | reflexivity | unfold len; simpl; lia].
  - exact (proj2 (proj2 (proj2 (parseSecureObjectPayload_total
                                  [0x41; 1; 7; 0x42; 0x81; 5; 9] Hall')))
             0x41 [1; 7; 0x42; 0x81; 5; 9] eq_refl).
  - exact (proj2 (proj2 (proj2 (parseSecureObjectPayload_total
                                  [0x42; 0x81; 5; 9] Hall'')))
             0x42 [0x81; 5; 9] eq_refl).
Defined.

(** ** C7: layout of the attribute record *)

Lemma slice_inside {T} (l : list T) i j :
  0 <= i <= j -> j <= len l ->
  slice l i j = take (Z.to_nat (j - i)) (drop (Z.to_nat i) l).
Proof.
  intros Hi Hj. unfold slice, clamp.
  destruct (Z.ltb_spec i 0); [lia|]. destruct (Z.ltb_spec j 0); [lia|].
  by rewrite !Z.min_l by lia.
Qed.

(** The source reads one byte at offset 13 for [maxAuthAttempt]: offset 12,
    the byte right after [authID], is in no field. *)
Lemma extractAttributes_skips_offset_12 :
  let blob := [0; 1; 2; 3; 4; 5; 6; 7; 8; 9; 10; 11; 12; 13; 14; 15; 16] in
  authID (extractAttributes blob) = [8; 9; 10; 11]
  /\ maxAuthAttempt (extractAttributes blob) = [13]
  /\ maxAuthAttempt (extractAttributes blob) <> slice blob 12 13
  /\ policy (extractAttributes blob) <> slice blob 13 16.
Proof. vm_compute. repeat split; discriminate. Qed.

(** C7 (amended).  For every attribute blob made of a 4-byte objectId, the
    objectClass byte, the authenticationIndicator byte, a 2-byte
    authCounter, a 4-byte authID, one byte that is skipped (offset 12),
    the maxAuthAttempt byte (offset 13), the policy bytes and a trailing
    origin byte, the parsed record holds exactly these parts. *)
Theorem extractAttributes_layout oid cls ai counter aid skipped attempts pol org :
  length oid = 4%nat -> length counter = 2%nat -> length aid = 4%nat ->
  extractAttributes
    (oid ++ [cls; ai] ++ counter ++ aid ++ [skipped; attempts] ++ pol ++ [org])
  = {| objectId := oid;
       objectClass := Some cls;
       authenticationIndicator := Some ai;
       authCounter := counter;
       authID := aid;
       maxAuthAttempt := [attempts];
       policy := pol;
       origin := Some org |}.
Proof.
  intros Ho Hc Ha.
  destruct oid as [|o0 [|o1 [|o2 [|o3 [|]]]]]; try discriminate.
  destruct counter as [|c0 [|c1 [|]]]; try discriminate.
  destruct aid as [|a0 [|a1 [|a2 [|a3 [|]]]]]; try discriminate.
  simpl app.
  set (blob := o0 :: _).
  assert (Hlen : len blob = 15 + len pol).
  { unfold blob, len. simpl. rewrite length_app. simpl. lia. }
  pose proof (len_nonneg pol).
  unfold extractAttributes.
  rewrite !slice_inside by lia.
  replace (Z.to_nat (len blob - 1 - 14)) with (length pol) by (unfold len in *; lia).
  replace (get blob (len blob - 1)) with (Some org).
  2:{ replace (len blob - 1) with (Z.of_nat (14 + length pol)) by (unfold len in *; lia).
      rewrite get_lookup. unfold blob.
      change (o0 :: ?l) with ([o0; o1; o2; o3; cls; ai; c0; c1; a0; a1; a2; a3; skipped; attempts] ++ pol ++ [org]).
      rewrite lookup_app_r by (simpl; lia). simpl.
      rewrite lookup_app_r by lia.
      by replace (length pol - 0 - length pol)%nat with 0%nat by lia. }
  unfold blob. f_equal; try reflexivity.
  change (Z.to_nat 14) with 14%nat. cbn [drop]. apply take_app_length.
Qed.

Lemma extractAttributes_layout_witness :
  extractAttributes
    ([0; 0; 0; 1] ++ [1; 1] ++ [0; 0] ++ [0; 0; 0; 0] ++ [0; 0]
       ++ [8; 0; 0; 0; 0; 24; 32; 0; 0] ++ [2])
  = {| objectId := [0; 0; 0; 1];
       objectClass := Some 1;
       authenticationIndicator := Some 1;
       authCounter := [0; 0];
       authID := [0; 0; 0; 0];
       maxAuthAttempt := [0];
       policy := [8; 0; 0; 0; 0; 24; 32; 0; 0];
       origin := Some 2 |}.
Proof.
  apply (extractAttributes_layout [0; 0; 0; 1] 1 1 [0; 0] [0; 0; 0; 0] 0 0
           [8; 0; 0; 0; 0; 24; 32; 0; 0] 2); reflexivity.
Defined.

(** ** C9: hexadecimal text to bytes *)

Lemma hexToUint8Array_odd hexString :
  Z.of_nat (String.length hexString) mod 2 <> 0 ->
  hexToUint8Array hexString
  = Throw "Invalid hexadecimal string: length must be even.".
Proof.
  intros Hodd. unfold hexToUint8Array.
  by destruct (Z.eqb_spec (Z.of_nat (String.length hexString) mod 2) 0).
Qed.

Lemma hex_pair_ok_all : forallb hex_pair_ok (Z.of_nat <$> seq 0 256) = true.
Proof. vm_compute. reflexivity. Qed.

Lemma hex_pair_byte b :
  is_byte b ->
  exists a c, padStart2 (Number_toString16 b) = String a (String c EmptyString)
    /\ parseInt16 (String a (String c EmptyString)) = Some b.
Proof.
  intros Hb. pose proof hex_pair_ok_all as Hall.
  rewrite forallb_forall in Hall.
  assert (Hin : In b (Z.of_nat <$> seq 0 256)).
  { apply in_map_iff. exists (Z.to_nat b). unfold is_byte in Hb.
    split; [lia|]. apply in_seq. lia. }
  specialize (Hall b Hin). unfold hex_pair_ok in Hall.
  destruct (padStart2 _) as [|a [|c [|]]]; try discriminate.
  exists a, c. split; [done|]. by apply bool_decide_eq_true_1 in Hall.
Qed.

Lemma ToUint8_bytes (bs : bytes) : Forall is_byte bs -> ToUint8 <$> bs = bs.
Proof.
  induction 1 as [|b bs Hb _ IH]; [done|]. rewrite fmap_cons, IH. f_equal.
  unfold ToUint8, is_byte in *. apply Z.mod_small. lia.
Qed.

Lemma hexToUint8Array_loop_bytesToHex bs :
  Forall is_byte bs -> hexToUint8Array_loop (bytesToHex bs) = Ok bs.
Proof.
  induction 1 as [|b bs Hb _ IH]; [done|].
  destruct (hex_pair_byte b Hb) as (a & c & Hpad & Hparse).
  cbn [bytesToHex foldr]. rewrite Hpad.
  change (String a (String c EmptyString) +:+ ?s) with (String a (String c s)).
  cbn [hexToUint8Array_loop]. rewrite Hparse.
  fold (bytesToHex bs). by rewrite IH.
Qed.

Lemma bytesToHex_length bs :
  Forall is_byte bs -> String.length (bytesToHex bs) = (2 * length bs)%nat.
Proof.
  induction 1 as [|b bs Hb _ IH]; [done|].
  destruct (hex_pair_byte b Hb) as (a & c & Hpad & _).
  cbn [bytesToHex foldr]. rewrite Hpad. fold (bytesToHex bs).
  change (String a (String c EmptyString) +:+ ?s) with (String a (String c s)).
  simpl. rewrite IH. lia.
Qed.

(** Text written by [bytesToHex] reads back as the same bytes. *)
Lemma hexToUint8Array_bytesToHex bs :
  Forall is_byte bs -> hexToUint8Array (bytesToHex bs) = Ok bs.
Proof.
  intros Hall. unfold hexToUint8Array.
  rewrite bytesToHex_length by done.
  replace (Z.of_nat (2 * length bs) mod 2) with 0
    by (rewrite Nat2Z.inj_mul, Z.mul_comm, Z_mod_mult; done).
  simpl. rewrite hexToUint8Array_loop_bytesToHex by done. simpl.
  by rewrite ToUint8_bytes.
Qed.

(** C9.  The claim that every string holding a character that is not a
    hexadecimal digit is refused does not hold of the code: [parseInt]
    reads the longest valid prefix of each pair, skips leading white space
    and accepts a sign, so ["1g"], [" 1"], ["+f"] and ["-1"] are converted
    to bytes instead of raising the error; only a pair with no digit at all
    where a digit is expected (["g1"], ["0x"]) is refused. *)
Theorem hexToUint8Array_accepts_non_hex :
  hexToUint8Array "1g" = Ok [1]
  /\ hexToUint8Array " 1" = Ok [1]
  /\ hexToUint8Array "+f" = Ok [15]
  /\ hexToUint8Array "-1" = Ok [255]
  /\ hexToUint8Array "g1"
     = Throw "Invalid hexadecimal string: contains invalid characters."
  /\ hexToUint8Array "0x"
     = Throw "Invalid hexadecimal string: contains invalid characters.".
Proof. repeat split; reflexivity. Qed.

(** ** C3: the create-asset builder *)

(** Shape of the array for all arguments: [id] is one element of it, and
    the two inner length fields and the outer one count elements. *)
Lemma createAsset_shape id assetIdentifier assetId :
  createAsset id assetIdentifier assetId
  = [Num 0x80; Num 0x01; Num 0x06; Num 0x00;
     Num (20 + len assetIdentifier + len assetId)]
    ++ [Num 0x11; Num 0x09; Num 0x08; Num 0x00; Num 0x00; Num 0x00; Num 0x00;
        Num 0x00; Num 0x20; Num 0x00; Num 0x00; Num 0x41; Num 0x04]
    ++ (Num <$> assetIdentifier)
    ++ [Num 0x43; Num 0x02; Num 0x00; Num (1 + len assetId);
        Num 0x44; Num (1 + len assetId)]
    ++ [Arr id] ++ (Num <$> assetId).
Proof.
  unfold createAsset. cbn [app]. repeat f_equal.
  - unfold len. cbn [length]. rewrite !length_app. cbn [length].
    rewrite !length_fmap. lia.
  - unfold len. cbn [length]. rewrite length_fmap. lia.
  - unfold len. cbn [length]. rewrite length_fmap. lia.
Qed.

Lemma flat_Num (bs : bytes) : flat (Num <$> bs) = bs.
Proof.
  induction bs as [|b bs IH]; [done|].
  change (flat (Num <$> b :: bs)) with (b :: flat (Num <$> bs)). by rewrite IH.
Qed.

(** Number of bytes that follow the outer length field once [id] is laid
    out byte by byte. *)
Lemma createAsset_payload_bytes id assetIdentifier assetId :
  len (drop 5 (flat (createAsset id assetIdentifier assetId)))
  = 19 + len assetIdentifier + len id + len assetId.
Proof.
  rewrite createAsset_shape. unfold flat.
  rewrite !bind_app. fold (flat (Num <$> assetIdentifier)) (flat (Num <$> assetId)).
  rewrite !flat_Num. cbn. unfold len.
  repeat (progress cbn [length] || rewrite length_app). lia.
Qed.

(** C3.  The claim does not hold of the code.  For the id [1,0,0,0], the
    asset object identifier [0,0,0,0] and the asset bytes [1,2], the
    builder returns an array that is not a byte sequence: the id is stored
    as a nested array, one element of the result, instead of being
    concatenated byte by byte, and the length field (26) counts elements,
    three fewer than the 29 bytes that follow it once the id is laid out. *)
Theorem createAsset_nests_id :
  let command := createAsset [0x01; 0x00; 0x00; 0x00] [0x00; 0x00; 0x00; 0x00] [0x01; 0x02] in
  command
  = [Num 0x80; Num 0x01; Num 0x06; Num 0x00; Num 26;
     Num 0x11; Num 0x09; Num 0x08; Num 0x00; Num 0x00; Num 0x00; Num 0x00;
     Num 0x00; Num 0x20; Num 0x00; Num 0x00;
     Num 0x41; Num 0x04; Num 0x00; Num 0x00; Num 0x00; Num 0x00;
     Num 0x43; Num 0x02; Num 0x00; Num 3;
     Num 0x44; Num 3; Arr [0x01; 0x00; 0x00; 0x00]; Num 0x01; Num 0x02]
  /\ (forall bs : bytes, command <> Num <$> bs)
  /\ command !! 4%nat = Some (Num 26)
  /\ len (drop 5 (flat command)) = 29.
Proof.
  split; [reflexivity|]. split; [|split; reflexivity].
  intros bs Hbs. apply (f_equal (fun l => l !! 28%nat)) in Hbs.
  rewrite list_lookup_fmap in Hbs. cbn in Hbs.
  destruct (bs !! 28%nat); discriminate.
Qed.

(** ** C1: the policy checks *)

(** [join("")] glues decimal numerals with nothing between them, so
    different arrays can give the same text. *)
Lemma join_empty_collision :
  join_empty [80; 0; 0; 0; 2; 4; 32; 0; 0] = join_empty [8; 0; 0; 0; 0; 24; 32; 0; 0]
  /\ join_empty [8; 0; 0; 0; 0; 2; 4; 32; 0; 0] = join_empty [8; 0; 0; 0; 0; 24; 32; 0; 0]
  /\ join_empty [80; 0; 0; 0; 0; 3; 2; 0; 0] = join_empty [8; 0; 0; 0; 0; 0; 32; 0; 0].
Proof. repeat split; reflexivity. Qed.

(** What the key check compares: with class, origin and indicator as
    required, the outcome depends on the joined text of the policy only. *)
Lemma readStoredPubkey_checks_policy pubKey attrs :
  objectClass attrs = Some 1 ->
  origin attrs = Some 2 ->
  authenticationIndicator attrs <> Some 2 ->
  NfcCore.readStoredPubkey_checks (Some {| data := pubKey; attributes := attrs |})
  = if String.eqb (join_empty (policy attrs)) "80000243200"
    then Ok pubKey else Throw "Key policy is not set correctly".
Proof.
  intros Hc Ho Ha. unfold NfcCore.readStoredPubkey_checks.
  rewrite (bool_decide_eq_true_2 _ Hc), (bool_decide_eq_true_2 _ Ho),
    (bool_decide_eq_false_2 _ Ha).
  cbn [negb]. change (join_empty [8; 0; 0; 0; 0; 24; 32; 0; 0]) with "80000243200"%string.
  by destruct (String.eqb _ _).
Qed.

Lemma readStoredAsset_checks_policy mint attrs :
  NfcCore.readStoredAsset_checks (Some {| data := mint; attributes := attrs |})
  = if String.eqb (join_empty (policy attrs)) "8000003200"
    then Ok (Some mint) else Throw "Asset is set with wrong policy".
Proof.
  unfold NfcCore.readStoredAsset_checks.
  change (join_empty [8; 0; 0; 0; 0; 0; 32; 0; 0]) with "8000003200"%string.
  by destruct (String.eqb _ _).
Qed.

(** An object whose policy is the canonical sequence passes the policy
    comparison. *)
Lemma canonical_policy_accepted pubKey mint attrs attrs' :
  objectClass attrs = Some 1 ->
  origin attrs = Some 2 ->
  authenticationIndicator attrs <> Some 2 ->
  policy attrs = [8; 0; 0; 0; 0; 24; 32; 0; 0] ->
  policy attrs' = [8; 0; 0; 0; 0; 0; 32; 0; 0] ->
  NfcCore.readStoredPubkey_checks (Some {| data := pubKey; attributes := attrs |})
  = Ok pubKey
  /\ NfcCore.readStoredAsset_checks (Some {| data := mint; attributes := attrs' |})
     = Ok (Some mint).
Proof.
  intros Hc Ho Ha Hp Hp'.
  rewrite readStoredPubkey_checks_policy, readStoredAsset_checks_policy by done.
  by rewrite Hp, Hp'.
Qed.

(** C1.  The claim does not hold of the code: the comparison is made on
    the decimal numerals of the bytes joined without a separator, so a key
    object whose nine policy bytes are 80,0,0,0,2,4,32,0,0 and an asset
    object whose nine policy bytes are 80,0,0,0,0,3,2,0,0 differ from the
    canonical sequences and are nevertheless accepted. *)
Theorem policy_check_accepts_other_bytes (pubKey mint : bytes) :
  let key_blob :=
    [0x01; 0; 0; 0; 1; 1; 0; 0; 0; 0; 0; 0; 0; 0; 80; 0; 0; 0; 2; 4; 32; 0; 0; 2] in
  let asset_blob :=
    [0x00; 0; 0; 0; 11; 1; 0; 0; 0; 0; 0; 0; 0; 0; 80; 0; 0; 0; 0; 3; 2; 0; 0; 1] in
  policy (extractAttributes key_blob) = [80; 0; 0; 0; 2; 4; 32; 0; 0]
  /\ policy (extractAttributes key_blob) <> [8; 0; 0; 0; 0; 24; 32; 0; 0]
  /\ NfcCore.readStoredPubkey_checks
       (Some {| data := pubKey; attributes := extractAttributes key_blob |})
     = Ok pubKey
  /\ policy (extractAttributes asset_blob) = [80; 0; 0; 0; 0; 3; 2; 0; 0]
  /\ policy (extractAttributes asset_blob) <> [8; 0; 0; 0; 0; 0; 32; 0; 0]
  /\ NfcCore.readStoredAsset_checks
       (Some {| data := mint; attributes := extractAttributes asset_blob |})
     = Ok (Some mint).
Proof. repeat split; try reflexivity; discriminate. Qed.

(** ** Chunk reversal *)

Lemma slice_chunk (l : bytes) (j : nat) :
  (j < length l)%nat ->
  slice l (Z.of_nat j) (Z.of_nat j + 32) = take 32 (drop j l).
Proof.
  intros Hj. unfold slice, clamp, len.
  destruct (Z.ltb_spec (Z.of_nat j) 0); [lia|].
  destruct (Z.ltb_spec (Z.of_nat j + 32) 0); [lia|].
  rewrite (Z.min_l (Z.of_nat j)) by lia. rewrite Nat2Z.id.
  destruct (Z.le_gt_cases (Z.of_nat j + 32) (Z.of_nat (length l))).
  - rewrite Z.min_l by lia. f_equal. lia.
  - rewrite Z.min_r by lia.
    rewrite !take_ge; [done| |]; rewrite length_drop; lia.
Qed.

(** The loop pushes the reversed blocks of what is left of the array, one
    block per unit of fuel. *)
Lemma toLittleEndian_loop_chunks (l : bytes) fuel : forall (j : nat) out,
  toLittleEndian_loop fuel l (Z.of_nat j) out
  = out ++ concat ((fun chunk => rev chunk) <$> chunks_fuel fuel 32 (drop j l)).
Proof.
  induction fuel as [|fuel IH]; intros j out; simpl.
  - by rewrite app_nil_r.
  - unfold len. destruct (Z.ltb_spec (Z.of_nat j) (Z.of_nat (length l))) as [Hj|Hj].
    + assert (Hlt : (j < length l)%nat) by lia.
      rewrite slice_chunk by done.
      replace (Z.of_nat j + 32) with (Z.of_nat (j + 32)) by lia.
      rewrite IH. destruct (drop j l) as [|x rest] eqn:Hd.
      { apply (f_equal length) in Hd. rewrite length_drop in Hd. simpl in Hd. lia. }
      rewrite <- Hd. rewrite fmap_cons. cbn [concat].
      rewrite <- app_assoc. do 3 f_equal.
      by rewrite drop_drop.
    + rewrite drop_ge by lia. by rewrite app_nil_r.
Qed.

(** The function is the block-wise reversal the specification names. *)
Lemma toLittleEndian_reverse_chunks l : toLittleEndian l = reverse_chunks l.
Proof.
  exact (toLittleEndian_loop_chunks l (length l) 0%nat []).
Qed.

(** [length l] blocks cover the whole array: no element is lost. *)
Lemma chunks_fuel_concat {T} (n : nat) fuel : forall l : list T,
  (0 < n)%nat -> (length l <= fuel)%nat -> concat (chunks_fuel fuel n l) = l.
Proof.
  induction fuel as [|fuel IH]; intros l Hn Hl.
  - destruct l; [done|simpl in Hl; lia].
  - destruct l as [|x l]; [done|].
    cbn [chunks_fuel concat]. rewrite IH; [apply take_drop|done|].
    rewrite length_drop. simpl in *. lia.
Qed.

Lemma chunks_concat (l : bytes) : concat (chunks 32 l) = l.
Proof. apply chunks_fuel_concat; lia. Qed.

Lemma chunks_fuel_enough {T} (n : nat) fuel : forall fuel' (l : list T),
  (0 < n)%nat -> (length l <= fuel)%nat -> (length l <= fuel')%nat ->
  chunks_fuel fuel n l = chunks_fuel fuel' n l.
Proof.
  induction fuel as [|fuel IH]; intros fuel' l Hn Hl Hl'.
  - destruct l; [by destruct fuel'|simpl in Hl; lia].
  - destruct l as [|x l]; [by destruct fuel'|].
    destruct fuel' as [|fuel']; [simpl in Hl'; lia|].
    cbn [chunks_fuel]. f_equal.
    apply IH; [done|..]; rewrite length_drop; simpl in *; lia.
Qed.

(** More fuel than [length] turns changes nothing. *)
Lemma toLittleEndian_loop_fuel l fuel :
  (length l <= fuel)%nat -> toLittleEndian_loop fuel l 0 [] = toLittleEndian l.
Proof.
  intros Hfuel. unfold toLittleEndian.
  change 0 with (Z.of_nat 0).
  rewrite !toLittleEndian_loop_chunks, drop_0.
  by rewrite (chunks_fuel_enough 32 fuel (length l)) by (done || lia).
Qed.

(** ** Running the methods of the class *)

Section Orchestrator.
Import NfcCore.
Context (C : Crypto) (A : Apdu) (nfcHandler : INfcHandler) (isAndroid : bool).

Lemma after_after s cs cs' : after (after s cs) cs' = after s (cs ++ cs').
Proof. unfold after. simpl. by rewrite app_assoc. Qed.

Lemma bindM_Ok {T U} (m : M T) (k : T -> M U) s a s' :
  m s = (Ok a, s') -> bindM m k s = k a s'.
Proof. intros H. unfold bindM. by rewrite H. Qed.

Lemma bindM_Throw {T U} (m : M T) (k : T -> M U) s e s' :
  m s = (Throw e, s') -> bindM m k s = (Throw e, s').
Proof. intros H. unfold bindM. by rewrite H. Qed.

Lemma bindM_assoc {T U V} (m : M T) (k : T -> M U) (k' : U -> M V) s :
  bindM (bindM m k) k' s = bindM m (fun x => bindM (k x) k') s.
Proof. unfold bindM. by destruct (m s) as [[a| |] s']. Qed.

(** [catch (error) { throw new Error(error.message) }] changes nothing
    that the model keeps of an error. *)
Lemma try_catch_rethrow {T} (m : M T) s :
  try_catch m (fun message => throw message) s = m s.
Proof. unfold try_catch, throw. by destruct (m s) as [[a| |] s']. Qed.

Abbreviation opening := (NfcCore.opening isAndroid).

Lemma ensureReady_ok s selected :
  isReady s = true ->
  requestTechnology nfcHandler (calls s) IsoDep = Ok tt ->
  (isAndroid = true ->
   setTimeout nfcHandler (calls s ++ [RequestTechnology IsoDep]) TIMEOUT = Ok tt) ->
  transceive nfcHandler (calls s ++ opening) (selectApplet A AID)
  = Ok (selected ++ [0x90; 0x00]) ->
  ensureReady A nfcHandler isAndroid s
  = (Ok tt, after s (opening ++ [Transceive (selectApplet A AID)])).
Proof.
  intros Hready Hreq Htime Hsel. unfold ensureReady. rewrite Hready. cbn [negb].
  unfold NfcCore.opening in *.
  erewrite bindM_Ok; [|unfold invoke; by rewrite Hreq].
  destruct isAndroid.
  - erewrite bindM_Ok; [|unfold invoke; cbn [calls]; by rewrite Htime].
    erewrite bindM_Ok.
    2:{ apply transceiveAndCheck_success. cbn [calls]. rewrite <- app_assoc. exact Hsel. }
    unfold ret, after. cbn [calls isReady]. by rewrite <- !app_assoc.
  - erewrite bindM_Ok; [|reflexivity].
    erewrite bindM_Ok.
    2:{ apply transceiveAndCheck_success. cbn [calls]. exact Hsel. }
    unfold ret, after. cbn [calls isReady]. by rewrite <- !app_assoc.
Qed.

Lemma slice_from_drop {T} (l : list T) (n : nat) :
  slice_from l (Z.of_nat n) = drop n l.
Proof.
  unfold slice_from, clamp, len.
  destruct (Z.ltb_spec (Z.of_nat n) 0); [lia|].
  destruct (Z.le_gt_cases (Z.of_nat n) (Z.of_nat (length l))).
  - rewrite Z.min_l by lia. by rewrite Nat2Z.id.
  - rewrite Z.min_r by lia. rewrite Nat2Z.id. by rewrite !drop_ge by lia.
Qed.

(** C2 (amended).  For every payload of at most 900 bytes, when the
    session opens, the applet selection succeeds, the response to the
    sign command is [body] followed by 0x90,0x00 and the session closes,
    [signRawPayload] returns [body] without its first four bytes, the
    rest reversed within each consecutive 32-byte block; the calls made
    are the opening ones, the two exchanges and the release. *)
Theorem signRawPayload_result s payload selected body :
  len payload <= MAX_APDU_SIZE ->
  isReady s = true ->
  let select := selectApplet A AID in
  let sign := signEd25519 A CHAIN_ID payload in
  requestTechnology nfcHandler (calls s) IsoDep = Ok tt ->
  (isAndroid = true ->
   setTimeout nfcHandler (calls s ++ [RequestTechnology IsoDep]) TIMEOUT = Ok tt) ->
  transceive nfcHandler (calls s ++ opening) select
  = Ok (selected ++ [0x90; 0x00]) ->
  transceive nfcHandler (calls s ++ opening ++ [Transceive select]) sign
  = Ok (body ++ [0x90; 0x00]) ->
  cancelTechnologyRequest nfcHandler
    (calls s ++ opening ++ [Transceive select; Transceive sign]) = Ok tt ->
  signRawPayload A nfcHandler isAndroid payload s
  = (Ok (reverse_chunks (drop 4 body)),
     after s (opening ++ [Transceive select; Transceive sign;
                          CancelTechnologyRequest])).
Proof.
  intros Hsize Hready select sign Hreq Htime Hsel Hsign Hclose.
  unfold signRawPayload, try_finally. rewrite try_catch_rethrow.
  destruct (Z.gtb_spec (len payload) MAX_APDU_SIZE); [lia|].
  erewrite bindM_Ok; [|by eapply ensureReady_ok].
  erewrite bindM_Ok.
  2:{ apply transceiveAndCheck_success. exact Hsign. }
  unfold ret, close, invoke. rewrite !after_after. cbn [calls after isReady].
  rewrite <- !app_assoc. cbn [app]. fold select sign. rewrite Hclose.
  change 4 with (Z.of_nat 4). rewrite slice_from_drop, toLittleEndian_reverse_chunks.
  reflexivity.
Qed.

End Orchestrator.

Lemma signRawPayload_result_witness :
  NfcCore.signRawPayload Fixture.apdu
    (Fixture.scripted [Fixture.success []; Fixture.success [1; 2; 3; 4; 5; 6]])
    true [7; 7] Fixture.ready
  = (Ok [6; 5],
     NfcCore.after Fixture.ready
       [RequestTechnology IsoDep; SetTimeout 5000;
        Transceive (selectApplet Fixture.apdu NfcCore.AID);
        Transceive (signEd25519 Fixture.apdu NfcCore.CHAIN_ID [7; 7]);
        CancelTechnologyRequest]).
Proof.
  apply (signRawPayload_result Fixture.apdu
           (Fixture.scripted [Fixture.success []; Fixture.success [1; 2; 3; 4; 5; 6]])
           true Fixture.ready [7; 7] [] [1; 2; 3; 4; 5; 6]);
    try reflexivity.
  discriminate.
Defined.

(** The first four bytes of the response body are dropped as well: the
    result is not the whole body reversed block by block. *)
Lemma signRawPayload_drops_four_bytes :
  let response := [1; 2; 3; 4; 5; 6; 0x90; 0x00] in
  let run :=
    NfcCore.signRawPayload Fixture.apdu
      (Fixture.scripted [Fixture.success []; Ok response]) false [7; 7]
      Fixture.ready in
  fst run = Ok [6; 5]
  /\ fst run <> Ok (reverse_chunks (slice response 0 (-2))).
Proof. vm_compute. split; [reflexivity|discriminate]. Qed.

(** ** C5: certificate trust *)

Lemma CERTIFICATE_PUBKEY_ok :
  hexToUint8Array NfcCore.CERTIFICATE_PUBKEY_hex = Ok NfcCore.CERTIFICATE_PUBKEY
  /\ length NfcCore.CERTIFICATE_PUBKEY = 65%nat.
Proof. split; vm_compute; reflexivity. Qed.

Lemma bytesToHex_nonempty bs :
  Forall is_byte bs -> bs <> [] -> truthy (Some (bytesToHex bs)) = Some (bytesToHex bs).
Proof.
  intros Hall Hne. destruct bs as [|b bs]; [done|].
  pose proof (bytesToHex_length (b :: bs) Hall) as Hlen.
  destruct (bytesToHex (b :: bs)); [simpl in Hlen; lia|done].
Qed.

Section Certificate.
Context (C : Crypto).

(** C5.  For every certificate the X.509 reader accepts, with
    to-be-signed region [tbs] and signature [signature]: when the ECDSA
    P-256 check of the signature on the SHA-256 hash of [tbs] against the
    hardcoded root key fails, parsing throws the untrusted-certificate
    error; when it succeeds, parsing returns the subject public key held
    by the certificate. *)
Theorem parseX509FromNumberArray_trust derCert cert tbs signature :
  readCertHex C (bytesToHex derCert) = Ok cert ->
  getTLVbyList C (X509_hex C cert) 0 [0] "30" = Ok (Some (bytesToHex tbs)) ->
  Forall is_byte tbs -> tbs <> [] ->
  getSignatureValueHex C cert = Ok signature ->
  (p256_verify C (HexString signature) (sha256 C tbs) NfcCore.CERTIFICATE_PUBKEY
   = Ok false ->
   parseX509FromNumberArray C derCert NfcCore.CERTIFICATE_PUBKEY
   = Throw "Unauthorised certificate signature.")
  /\ (forall spki,
        p256_verify C (HexString signature) (sha256 C tbs) NfcCore.CERTIFICATE_PUBKEY
        = Ok true ->
        getSPKIValue C cert = Ok (bytesToHex spki) ->
        Forall is_byte spki ->
        parseX509FromNumberArray C derCert NfcCore.CERTIFICATE_PUBKEY = Ok spki).
Proof.
  intros Hread Htbs Hbytes Hne Hsig.
  unfold parseX509FromNumberArray. rewrite Hread. cbn [bind]. rewrite Htbs.
  cbn [bind]. rewrite (bytesToHex_nonempty tbs Hbytes Hne).
  rewrite (hexToUint8Array_bytesToHex tbs Hbytes). cbn [bind].
  rewrite Hsig. cbn [bind]. split.
  - by intros ->.
  - intros spki -> Hspki Hall. cbn [bind]. rewrite Hspki. cbn [bind].
    by rewrite (hexToUint8Array_bytesToHex spki Hall).
Qed.

(** A region that is missing or empty is refused like a bad signature. *)
Lemma parseX509FromNumberArray_no_tbs derCert key cert tbsCert :
  readCertHex C (bytesToHex derCert) = Ok cert ->
  getTLVbyList C (X509_hex C cert) 0 [0] "30" = Ok tbsCert ->
  truthy tbsCert = None ->
  parseX509FromNumberArray C derCert key
  = Throw "Unauthorised certificate signature.".
Proof.
  intros Hread Htbs Hnone. unfold parseX509FromNumberArray.
  rewrite Hread. cbn [bind]. rewrite Htbs. cbn [bind]. by rewrite Hnone.
Qed.

End Certificate.

Lemma parseX509FromNumberArray_trust_witness :
  parseX509FromNumberArray (Fixture.stub false) [0x30; 0x00] NfcCore.CERTIFICATE_PUBKEY
  = Throw "Unauthorised certificate signature."
  /\ parseX509FromNumberArray (Fixture.stub true) [0x30; 0x00] NfcCore.CERTIFICATE_PUBKEY
     = Ok [0x04].
Proof.
  assert (Htbs : Forall is_byte [0x30; 0x00])
    by (repeat constructor; unfold is_byte; lia).
  assert (Hkey : Forall is_byte [0x04])
    by (repeat constructor; unfold is_byte; lia).
  split.
  - apply (proj1 (parseX509FromNumberArray_trust (Fixture.stub false)
                    [0x30; 0x00] "3000"%string [0x30; 0x00] EmptyString
                    eq_refl eq_refl Htbs ltac:(discriminate) eq_refl)).
    reflexivity.
  - apply (proj2 (parseX509FromNumberArray_trust (Fixture.stub true)
                    [0x30; 0x00] "3000"%string [0x30; 0x00] EmptyString
                    eq_refl eq_refl Htbs ltac:(discriminate) eq_refl) [0x04]);
      [reflexivity | reflexivity | exact Hkey].
Defined.

(** ** C4: the read-or-create fallback *)

Section Fallback.
Import NfcCore.
Context (C : Crypto) (A : Apdu) (nfcHandler : INfcHandler) (isAndroid : bool).

Abbreviation readPub := (readDataWithAttestation A CHAIN_ID ATTESTATION_KEY).
Abbreviation createPub := (createAddress A CHAIN_ID (Chain.curve SOLANA)).
Abbreviation readAsset := (readDataWithAttestation A ASSET_ID ATTESTATION_KEY).
Abbreviation attempt := (readAndVerify C nfcHandler).
Abbreviation exchange := (transceiveAndCheck nfcHandler).
Abbreviation release := (cancelTechnologyRequest nfcHandler).

Lemma readAndVerify_state command key message s :
  snd (attempt command key message s) = after s [Transceive command].
Proof.
  unfold readAndVerify, bindM.
  pose proof (transceiveAndCheck_state nfcHandler command message s) as Hs.
  destruct (exchange command message s) as [[response| |] s']; simpl in *; subst s'; done.
Qed.

Lemma bindM_OutOfFuel {T U} (m : M T) (k : T -> M U) s s' :
  m s = (OutOfFuel, s') -> bindM m k s = (OutOfFuel, s').
Proof. intros H. unfold bindM. by rewrite H. Qed.

Lemma run_eq {T} (m : M T) s r s' : fst (m s) = r -> snd (m s) = s' -> m s = (r, s').
Proof. destruct (m s). simpl. by intros -> ->. Qed.

(** Settling the promise that the [try] statement returned. *)
Lemma settle_returned (response key : bytes) message s :
  lift (bind (verifyData C response key message)
          (fun stored => Ok (Some stored))) s
  = (let* stored := lift (verifyData C response key message) in
     ret (Some stored))%nfc s.
Proof. unfold lift, bindM, ret. by destruct (verifyData C response key message). Qed.

(** The exchange of the first read succeeded: nothing else is sent,
    whatever create command is wired, and the outcome is that of the
    verification, its failure included. *)
Lemma fallback_answered command create key message createMessage s response :
  fst (exchange command message s) = Ok response ->
  readStoredDataWithFallback C nfcHandler command create key message createMessage s
  = (bind (verifyData C response key message) (fun stored => Ok (Some stored)),
     after s [Transceive command]).
Proof.
  intros Hr. pose proof (transceiveAndCheck_state nfcHandler command message s) as Hs.
  unfold readStoredDataWithFallback, try_catch, bindM.
  destruct (exchange command message s) as [[r| |] s1]; simpl in *; try done.
  injection Hr as ->. by subst s1.
Qed.

(** The exchange of the first read failed and no create command or no
    create message is wired: [null]. *)
Lemma fallback_absent command create key message createMessage s e :
  fst (exchange command message s) = Throw e ->
  create = None \/ truthy createMessage = None ->
  readStoredDataWithFallback C nfcHandler command create key message createMessage s
  = (Ok None, after s [Transceive command]).
Proof.
  intros He Hnone. pose proof (transceiveAndCheck_state nfcHandler command message s) as Hs.
  unfold readStoredDataWithFallback, try_catch, bindM.
  destruct (exchange command message s) as [[r| |] s1]; simpl in *; try done.
  subst s1.
  destruct Hnone as [-> | ->]; [reflexivity|]. by destruct create.
Qed.

(** A create command is wired: after a failed exchange of the first read
    it is sent, and only if its exchange succeeds is the read made
    again. *)
Lemma fallback_create command create key message createMessage s e :
  fst (exchange command message s) = Throw e ->
  createMessage <> EmptyString ->
  readStoredDataWithFallback C nfcHandler command (Some create) key message
    (Some createMessage) s
  = (exchange create createMessage;;
     let* stored := attempt command key message in
     ret (Some stored))%nfc (after s [Transceive command]).
Proof.
  intros He Hmsg. pose proof (transceiveAndCheck_state nfcHandler command message s) as Hs.
  destruct createMessage as [|c createMessage]; [done|].
  unfold readStoredDataWithFallback, try_catch, readAndVerify, bindM, ret, lift.
  cbn [truthy].
  destruct (exchange command message s) as [[r| |] s1]; simpl in *; try done.
  subst s1.
  destruct (exchange create (String c createMessage)
              (after s [Transceive command])) as [[x| |] s2]; try done.
  destruct (exchange command message s2) as [[response| |] s3]; try done.
  by destruct (verifyData C response key message).
Qed.

(** [readSecureElement] is its first statements followed by the two
    object reads, with the release in any case. *)
Lemma readSecureElement_steps s :
  readSecureElement C A nfcHandler isAndroid s
  = try_finally
      (let* attestationKey := session_prefix C A nfcHandler isAndroid in
       let* storedAddress := readStoredPubkey C A nfcHandler attestationKey in
       let* storedAsset := readStoredAsset C A nfcHandler attestationKey in
       ret {| walletAddress := bs58_encode C (toLittleEndian storedAddress);
              mint := (fun a => bs58_encode C (slice_from a 1)) <$> storedAsset;
              blockchain :=
                snd <$> find
                  (fun x =>
                     match storedAsset with
                     | Some a => bool_decide (Some (Chain.id (snd x)) = get a 0)
                     | None => false
                     end)
                  BLOCKCHAIN |})%nfc
      (close nfcHandler) s.
Proof.
  unfold readSecureElement, try_finally. rewrite try_catch_rethrow.
  unfold session_prefix. rewrite !bindM_assoc.
  destruct (ensureReady A nfcHandler isAndroid s) as [[u| |] s0] eqn:He.
  - rewrite !(bindM_Ok _ _ _ _ _ He). by rewrite bindM_assoc.
  - by rewrite !(bindM_Throw _ _ _ _ _ He).
  - by rewrite !(bindM_OutOfFuel _ _ _ _ He).
Qed.

Lemma exchange_run command message s r :
  fst (exchange command message s) = r ->
  exchange command message s = (r, after s [Transceive command]).
Proof. intros Hr. apply run_eq; [done|apply transceiveAndCheck_state]. Qed.

Lemma attempt_run command key message s r :
  fst (attempt command key message s) = r ->
  attempt command key message s = (r, after s [Transceive command]).
Proof. intros Hr. apply run_eq; [done|apply readAndVerify_state]. Qed.

(** The ways the read of the public-key object can go. *)
Lemma readStoredPubkey_run key s :
  let s2 := after s [Transceive readPub] in
  let s3 := after s [Transceive readPub; Transceive createPub] in
  let s4 := after s [Transceive readPub; Transceive createPub; Transceive readPub] in
  let first := fst (exchange readPub "Reading Public Key failed" s) in
  let created := fst (exchange createPub "Generating Public Key failed" s2) in
  let second := fst (attempt readPub key "Reading Public Key failed" s3) in
  (forall response, first = Ok response ->
     readStoredPubkey C A nfcHandler key s
     = (bind (verifyData C response key "Reading Public Key failed")
          (fun o => readStoredPubkey_checks (Some o)), s2))
  /\ (forall e e', first = Throw e -> created = Throw e' ->
       readStoredPubkey C A nfcHandler key s = (Throw e', s3))
  /\ (forall e x e', first = Throw e -> created = Ok x -> second = Throw e' ->
       readStoredPubkey C A nfcHandler key s = (Throw e', s4))
  /\ (forall e x o, first = Throw e -> created = Ok x -> second = Ok o ->
       readStoredPubkey C A nfcHandler key s = (readStoredPubkey_checks (Some o), s4)).
Proof.
  intros s2 s3 s4 first created second. unfold readStoredPubkey.
  split; [|split; [|split]].
  - intros response Hr. unfold bindM at 1.
    rewrite (fallback_answered _ _ _ _ _ _ response) by done.
    unfold lift. by destruct (verifyData C response key _).
  - intros e e' He He'. apply exchange_run in He'.
    unfold bindM at 1. rewrite (fallback_create _ _ _ _ _ _ e) by done.
    fold s2. rewrite (bindM_Throw _ _ _ _ _ He'). unfold s2. by rewrite after_after.
  - intros e x e' He Hx He'. apply exchange_run in Hx. apply attempt_run in He'.
    unfold bindM at 1. rewrite (fallback_create _ _ _ _ _ _ e) by done.
    fold s2. rewrite (bindM_Ok _ _ _ _ _ Hx). unfold s2. rewrite after_after.
    cbn [app]. fold s3. rewrite (bindM_Throw _ _ _ _ _ He').
    unfold s3. by rewrite after_after.
  - intros e x o He Hx Ho. apply exchange_run in Hx. apply attempt_run in Ho.
    unfold bindM at 1. rewrite (fallback_create _ _ _ _ _ _ e) by done.
    fold s2. rewrite (bindM_Ok _ _ _ _ _ Hx). unfold s2. rewrite after_after.
    cbn [app]. fold s3. rewrite (bindM_Ok _ _ _ _ _ Ho).
    unfold s3. by rewrite after_after.
Qed.

(** The two ways the read of the asset object can go: one exchange, no
    create command; [null] when the exchange fails, the verification and
    the policy check when it succeeds. *)
Lemma readStoredAsset_run key s :
  let s' := after s [Transceive readAsset] in
  let asset := fst (exchange readAsset "Reading Stored Asset failed" s) in
  (forall e, asset = Throw e ->
     readStoredAsset C A nfcHandler key s = (Ok None, s'))
  /\ (forall response, asset = Ok response ->
       readStoredAsset C A nfcHandler key s
       = (bind (verifyData C response key "Reading Stored Asset failed")
            (fun o => readStoredAsset_checks (Some o)), s')).
Proof.
  intros s' asset. unfold readStoredAsset. split.
  - intros e He. erewrite bindM_Ok; [|by eapply fallback_absent; [|left]]. done.
  - intros response Hr. unfold bindM at 1.
    rewrite (fallback_answered _ _ _ _ _ _ response) by done.
    unfold lift. by destruct (verifyData C response key _).
Qed.

(** The release runs after a body that returned or threw, and an error
    of the release replaces the outcome. *)
Lemma try_finally_close {T} (body : M T) s r s' :
  body s = (r, s') -> r <> OutOfFuel ->
  try_finally body (close nfcHandler) s
  = (match release (calls s') with
     | Ok _ => r
     | Throw e => Throw e
     | OutOfFuel => OutOfFuel
     end, after s' [CancelTechnologyRequest]).
Proof.
  intros Hb Hr. unfold try_finally, close, invoke. rewrite Hb.
  destruct r; try done; by destruct (release (calls s')).
Qed.

Lemma try_finally_close_Throw {T} (body : M T) s e s' :
  body s = (Throw e, s') ->
  let run := try_finally body (close nfcHandler) s in
  snd run = after s' [CancelTechnologyRequest]
  /\ (forall v, fst run <> Ok v)
  /\ (release (calls s') = Ok tt -> fst run = Throw e).
Proof.
  intros Hb run. unfold run. rewrite (try_finally_close _ _ _ _ Hb) by done.
  simpl. split; [done|]. split.
  - intros v. by destruct (release (calls s')).
  - by intros ->.
Qed.

(** C4 (amended).  In every run of [readSecureElement] over any handler:
    - a failure of the statements before the object reads is thrown to
      the caller after the release;
    - when the exchange of the first read of the public-key object fails,
      the create-address command is sent once, right after it; if that
      exchange fails, its error is thrown and the read is not made
      again; if it succeeds, the read is made again once, and a failure
      of this second read is thrown, no further command being sent;
    - when the exchange of the first read succeeds, no create command is
      sent and the read is not made again: the object read is verified
      and checked, and when it does not verify the error is thrown;
    - the read of the asset object is one exchange, never followed by a
      create command; when the exchange fails the result has a null
      asset and a null blockchain instead of an error; when it succeeds
      and the object does not verify or has the wrong policy, the error
      is thrown;
    - every other failure (the checks on the key) is thrown as well. *)
Theorem readSecureElement_fallback s :
  let run := readSecureElement C A nfcHandler isAndroid s in
  (forall e s1,
     session_prefix C A nfcHandler isAndroid s = (Throw e, s1) ->
     snd run = after s1 [CancelTechnologyRequest]
     /\ (forall v, fst run <> Ok v)
     /\ (release (calls s1) = Ok tt -> fst run = Throw e))
  /\ (forall key s1,
       session_prefix C A nfcHandler isAndroid s = (Ok key, s1) ->
       let s2 := after s1 [Transceive readPub] in
       let s3 := after s1 [Transceive readPub; Transceive createPub] in
       let s4 := after s1 [Transceive readPub; Transceive createPub;
                           Transceive readPub] in
       let first := fst (exchange readPub "Reading Public Key failed" s1) in
       let created := fst (exchange createPub "Generating Public Key failed" s2) in
       let second := fst (attempt readPub key "Reading Public Key failed" s3) in
       (forall e e', first = Throw e -> created = Throw e' ->
          snd run = after s3 [CancelTechnologyRequest]
          /\ (forall v, fst run <> Ok v)
          /\ (release (calls s3) = Ok tt -> fst run = Throw e'))
       /\ (forall e x e', first = Throw e -> created = Ok x -> second = Throw e' ->
            snd run = after s4 [CancelTechnologyRequest]
            /\ (forall v, fst run <> Ok v)
            /\ (release (calls s4) = Ok tt -> fst run = Throw e'))
       /\ (forall e x o, first = Throw e -> created = Ok x -> second = Ok o ->
            readStoredPubkey C A nfcHandler key s1
            = (readStoredPubkey_checks (Some o), s4))
       /\ (forall response, first = Ok response ->
            readStoredPubkey C A nfcHandler key s1
            = (bind (verifyData C response key "Reading Public Key failed")
                 (fun o => readStoredPubkey_checks (Some o)), s2))
       /\ (forall response e, first = Ok response ->
            verifyData C response key "Reading Public Key failed" = Throw e ->
            snd run = after s2 [CancelTechnologyRequest]
            /\ (forall v, fst run <> Ok v)
            /\ (release (calls s2) = Ok tt -> fst run = Throw e))
       /\ (forall e s5,
            readStoredPubkey C A nfcHandler key s1 = (Throw e, s5) ->
            snd run = after s5 [CancelTechnologyRequest]
            /\ (forall v, fst run <> Ok v)
            /\ (release (calls s5) = Ok tt -> fst run = Throw e))
       /\ (forall pub s5,
            readStoredPubkey C A nfcHandler key s1 = (Ok pub, s5) ->
            let s6 := after s5 [Transceive readAsset] in
            let asset := fst (exchange readAsset "Reading Stored Asset failed" s5) in
            (forall e, asset = Throw e ->
               snd run = after s6 [CancelTechnologyRequest]
               /\ (release (calls s6) = Ok tt ->
                   fst run
                   = Ok {| walletAddress := bs58_encode C (toLittleEndian pub);
                           mint := None;
                           blockchain := None |}))
            /\ (forall response, asset = Ok response ->
                 let verdict :=
                   bind (verifyData C response key "Reading Stored Asset failed")
                     (fun o => readStoredAsset_checks (Some o)) in
                 (verdict <> OutOfFuel ->
                  snd run = after s6 [CancelTechnologyRequest])
                 /\ (forall e, verdict = Throw e ->
                     (forall v, fst run <> Ok v)
                     /\ (release (calls s6) = Ok tt -> fst run = Throw e))))).
Proof.
  intros run. unfold run. rewrite readSecureElement_steps. split.
  - intros e s1 Hp. apply try_finally_close_Throw.
    by rewrite (bindM_Throw _ _ _ _ _ Hp).
  - intros key s1 Hp.
    destruct (readStoredPubkey_run key s1) as (Hfound & Hcreate & Hretry & Hsecond).
    assert (Hthrow : forall e s5,
      readStoredPubkey C A nfcHandler key s1 = (Throw e, s5) ->
      let run := try_finally
        (let* attestationKey := session_prefix C A nfcHandler isAndroid in
         let* storedAddress := readStoredPubkey C A nfcHandler attestationKey in
         let* storedAsset := readStoredAsset C A nfcHandler attestationKey in
         ret {| walletAddress := bs58_encode C (toLittleEndian storedAddress);
                mint := (fun a => bs58_encode C (slice_from a 1)) <$> storedAsset;
                blockchain :=
                  snd <$> find
                    (fun x =>
                       match storedAsset with
                       | Some a => bool_decide (Some (Chain.id (snd x)) = get a 0)
                       | None => false
                       end)
                    BLOCKCHAIN |})%nfc
        (close nfcHandler) s in
      snd run = after s5 [CancelTechnologyRequest]
      /\ (forall v, fst run <> Ok v)
      /\ (release (calls s5) = Ok tt -> fst run = Throw e)).
    { intros e s5 Hk. apply try_finally_close_Throw.
      rewrite (bindM_Ok _ _ _ _ _ Hp). by rewrite (bindM_Throw _ _ _ _ _ Hk). }
    split; [|split; [|split; [|split; [|split; [|split]]]]].
    + intros e e' He He'. apply Hthrow. by apply (Hcreate e).
    + intros e x e' He Hx He'. apply Hthrow. by apply (Hretry e x).
    + intros e x o He Hx Ho. by apply (Hsecond e x).
    + intros response Hr. by apply Hfound.
    + intros response e Hr He. apply Hthrow.
      rewrite (Hfound response Hr). by rewrite He.
    + exact Hthrow.
    + intros pub s5 Hk.
      destruct (readStoredAsset_run key s5) as (Habsent & Hpresent). split.
      * intros e He. specialize (Habsent e He).
        erewrite try_finally_close.
        2:{ rewrite (bindM_Ok _ _ _ _ _ Hp), (bindM_Ok _ _ _ _ _ Hk).
            rewrite (bindM_Ok _ _ _ _ _ Habsent). reflexivity. }
        2:{ done. }
        split; [done|]. simpl. by intros ->.
      * intros response Hr. specialize (Hpresent response Hr). cbv zeta.
        destruct (bind (verifyData C response key "Reading Stored Asset failed")
                    (fun o => readStoredAsset_checks (Some o)))
          as [a|e'|] eqn:Hverdict.
        -- erewrite try_finally_close.
           2:{ rewrite (bindM_Ok _ _ _ _ _ Hp), (bindM_Ok _ _ _ _ _ Hk).
               rewrite (bindM_Ok _ _ _ _ _ Hpresent). reflexivity. }
           2:{ done. }
           split; [done|]. intros e; discriminate.
        -- match goal with
           | |- (_ -> snd (try_finally ?body _ _) = _) /\ _ =>
               destruct (try_finally_close_Throw body s e'
                           (after s5 [Transceive readAsset]))
                 as (Hs & Hv & Hrel)
           end.
           { rewrite (bindM_Ok _ _ _ _ _ Hp), (bindM_Ok _ _ _ _ _ Hk).
             apply (bindM_Throw _ _ _ _ _ Hpresent). }
           split; [by intros _|]. intros e [= <-]. split; [exact Hv|exact Hrel].
        -- split; [done|]. intros e; discriminate.
Qed.
End Fallback.

Lemma readSecureElement_fallback_witness :
  fst (NfcCore.readSecureElement Fixture.accept_all Fixture.apdu
         Scenario.create_refused false Fixture.ready)
  = Throw "Generating Public Key failed"
  /\ fst (NfcCore.readSecureElement Fixture.accept_all Fixture.apdu
           Scenario.unprovisioned false Fixture.ready)
     = Ok {| NfcCore.walletAddress := "04030201";
             NfcCore.mint := None;
             NfcCore.blockchain := None |}
  /\ fst (NfcCore.readSecureElement Unverified.signed_by_one Fixture.apdu
           Unverified.forged_key false Fixture.ready)
     = Throw "Reading Public Key failed"
  /\ fst (NfcCore.readSecureElement Unverified.signed_by_one Fixture.apdu
           Unverified.forged_asset false Fixture.ready)
     = Throw "Reading Stored Asset failed".
Proof.
  split; [|split; [|split]].
  - refine (proj2 (proj2 (proj1 (proj2 (readSecureElement_fallback
             Fixture.accept_all Fixture.apdu Scenario.create_refused false
             Fixture.ready) [0x04] Scenario.key_obtained eq_refl)
             "Reading Public Key failed"%string
             "Generating Public Key failed"%string eq_refl eq_refl)) eq_refl).
  - refine (proj2 (proj1 (proj2 (proj2 (proj2 (proj2 (proj2 (proj2 (proj2
             (readSecureElement_fallback
                Fixture.accept_all Fixture.apdu Scenario.unprovisioned false
                Fixture.ready) [0x04] Scenario.key_obtained eq_refl))))))
             [1; 2; 3; 4]
             (NfcCore.after Scenario.key_obtained
                [Transceive Scenario.readPub; Transceive Scenario.createPub;
                 Transceive Scenario.readPub])
             eq_refl)
             "Reading Stored Asset failed"%string eq_refl) eq_refl).
  - refine (proj2 (proj2 (proj1 (proj2 (proj2 (proj2 (proj2 (proj2
             (readSecureElement_fallback
                Unverified.signed_by_one Fixture.apdu Unverified.forged_key false
                Fixture.ready) [0x04] Scenario.key_obtained eq_refl)))))
             Unverified.bad_key "Reading Public Key failed"%string
             eq_refl eq_refl)) eq_refl).
  - refine (proj2 (proj2 (proj2 (proj2 (proj2 (proj2 (proj2 (proj2 (proj2 (proj2
             (readSecureElement_fallback
                Unverified.signed_by_one Fixture.apdu Unverified.forged_asset false
                Fixture.ready) [0x04] Scenario.key_obtained eq_refl))))))
             [1; 2; 3; 4]
             (NfcCore.after Scenario.key_obtained [Transceive Scenario.readPub])
             eq_refl)
             Unverified.bad_asset eq_refl)
             "Reading Stored Asset failed"%string eq_refl) eq_refl).
Defined.

(** When the create exchange fails the read is not made again: the
    public-key object is read once, not twice.  And a failed read is not
    always absorbed: a key object that is read but does not verify is an
    error thrown right after the read, with no create command, and an
    asset object that is read but does not verify is an error, not a null
    asset. *)
Lemma create_failure_is_not_retried :
  let run :=
    NfcCore.readSecureElement Fixture.accept_all Fixture.apdu
      Scenario.create_refused false Fixture.ready in
  let forged :=
    NfcCore.readSecureElement Unverified.signed_by_one Fixture.apdu
      Unverified.forged_key false Fixture.ready in
  let forged_asset :=
    NfcCore.readSecureElement Unverified.signed_by_one Fixture.apdu
      Unverified.forged_asset false Fixture.ready in
  (fst (NfcCore.transceiveAndCheck Scenario.create_refused
          Scenario.readPub "Reading Public Key failed" Scenario.key_obtained)
   = Throw "Reading Public Key failed"
   /\ NfcCore.sent (NfcCore.calls (snd run))
      = [selectApplet Fixture.apdu NfcCore.AID;
         readData NfcCore.ATTESTATION_KEY_CERT;
         Scenario.readPub; Scenario.createPub]
   /\ length (filter (fun c => c = Scenario.readPub)
                (NfcCore.sent (NfcCore.calls (snd run)))) <> 2%nat
   /\ fst run = Throw "Generating Public Key failed")
  /\ (fst (NfcCore.readAndVerify Unverified.signed_by_one Unverified.forged_key
             Scenario.readPub [0x04] "Reading Public Key failed"
             Scenario.key_obtained)
      = Throw "Reading Public Key failed"
      /\ NfcCore.sent (NfcCore.calls (snd forged))
         = [selectApplet Fixture.apdu NfcCore.AID;
            readData NfcCore.ATTESTATION_KEY_CERT;
            Scenario.readPub]
      /\ fst forged = Throw "Reading Public Key failed")
  /\ (fst (NfcCore.readAndVerify Unverified.signed_by_one Unverified.forged_asset
             Scenario.readAsset [0x04] "Reading Stored Asset failed"
             (NfcCore.after Scenario.key_obtained [Transceive Scenario.readPub]))
      = Throw "Reading Stored Asset failed"
      /\ NfcCore.sent (NfcCore.calls (snd forged_asset))
         = [selectApplet Fixture.apdu NfcCore.AID;
            readData NfcCore.ATTESTATION_KEY_CERT;
            Scenario.readPub; Scenario.readAsset]
      /\ (forall result, fst forged_asset <> Ok result)
      /\ fst forged_asset = Throw "Reading Stored Asset failed").
Proof. vm_compute. repeat split; discriminate. Qed.

(** The key object read from the chip with the policy bytes
    80,0,0,0,2,4,32,0,0 goes through [readStoredPubkey]. *)
Lemma readStoredPubkey_accepts_other_policy :
  fst (NfcCore.readStoredPubkey Fixture.accept_all Fixture.apdu
         (Fixture.scripted [Fixture.success Scenario.other_policy_object])
         [0x04] Fixture.ready)
  = Ok [1; 2; 3; 4].
Proof. vm_compute. reflexivity. Qed.

(** * Further properties of the code *)

(** ** utils/helpers.ts: toLittleEndian *)

Lemma reverse_chunks_block (c rest : bytes) :
  length c = 32%nat -> reverse_chunks (c ++ rest) = rev c ++ reverse_chunks rest.
Proof.
  intros Hc. unfold reverse_chunks, chunks.
  destruct c as [|x c]; [discriminate|].
  rewrite length_app. cbn [length app Nat.add chunks_fuel].
  change (x :: c ++ rest) with ((x :: c) ++ rest).
  rewrite <- Hc, take_app_length, drop_app_length.
  rewrite fmap_cons. cbn [concat]. do 3 f_equal.
  apply chunks_fuel_enough; simpl in *; lia.
Qed.

Lemma reverse_chunks_short (l : bytes) :
  (length l <= 32)%nat -> reverse_chunks l = rev l.
Proof.
  intros Hl. unfold reverse_chunks, chunks.
  destruct l as [|x l]; [done|].
  cbn [length chunks_fuel]. rewrite take_ge, drop_ge by (simpl in *; lia).
  replace (chunks_fuel (length l) 32 []) with (@nil (list Z)) by (by destruct (length l)).
  simpl. by rewrite app_nil_r.
Qed.

(** X1.  [toLittleEndian] keeps every element: its result is a
    rearrangement of the input, of the same length. *)
Theorem toLittleEndian_permutation (l : bytes) :
  toLittleEndian l ≡ₚ l /\ length (toLittleEndian l) = length l.
Proof.
  assert (Hp : toLittleEndian l ≡ₚ l).
  { rewrite toLittleEndian_reverse_chunks. unfold reverse_chunks.
    rewrite <- (chunks_concat l) at 2.
    induction (chunks 32 l) as [|c cs IH]; [done|].
    rewrite fmap_cons. cbn [concat]. rewrite IH.
    by rewrite <- (Permutation_rev c). }
  split; [done|]. by rewrite Hp.
Qed.

(** X2.  [toLittleEndian] undoes itself on every array, whatever its
    length: the last, shorter block is reversed in place like the others. *)
Theorem toLittleEndian_involutive (l : bytes) :
  toLittleEndian (toLittleEndian l) = l.
Proof.
  rewrite !toLittleEndian_reverse_chunks.
  remember (length l) as n eqn:Hn. revert l Hn.
  induction n as [n IH] using lt_wf_ind. intros l Hn.
  destruct (Nat.le_gt_cases (length l) 32) as [Hle|Hgt].
  - rewrite (reverse_chunks_short l) by done.
    rewrite reverse_chunks_short by (by rewrite length_rev).
    apply rev_involutive.
  - rewrite <- (take_drop 32 l) at 1.
    assert (Hc : length (take 32 l) = 32%nat) by (rewrite length_take; lia).
    rewrite reverse_chunks_block by done.
    rewrite reverse_chunks_block by (by rewrite length_rev).
    rewrite rev_involutive.
    rewrite (IH (length (drop 32 l))); [apply take_drop| |done].
    rewrite length_drop. lia.
Qed.

(** X3.  Block structure of [toLittleEndian]: an array of at most 32
    elements (a public key) is reversed as a whole, and a leading block of
    32 elements is reversed on its own, the rest being treated the same way
    (a 64-byte signature is its two halves, each reversed). *)
Theorem toLittleEndian_blocks (c rest : bytes) :
  ((length c <= 32)%nat -> toLittleEndian c = rev c)
  /\ (length c = 32%nat ->
      toLittleEndian (c ++ rest) = rev c ++ toLittleEndian rest).
Proof.
  rewrite !toLittleEndian_reverse_chunks. split.
  - apply reverse_chunks_short.
  - apply reverse_chunks_block.
Qed.

Lemma toLittleEndian_blocks_witness :
  toLittleEndian [1; 2; 3] = [3; 2; 1]
  /\ toLittleEndian ((Z.of_nat <$> seq 0 32) ++ (Z.of_nat <$> seq 32 8))
     = rev (Z.of_nat <$> seq 0 32) ++ toLittleEndian (Z.of_nat <$> seq 32 8).
Proof.
  split.
  - apply (proj1 (toLittleEndian_blocks [1; 2; 3] [])). simpl. lia.
  - apply (proj2 (toLittleEndian_blocks (Z.of_nat <$> seq 0 32) (Z.of_nat <$> seq 32 8))).
    reflexivity.
Defined.

(** ** utils/helpers.ts: encodeLength *)

(** X4.  [encodeLength] never fails: a length up to 255 is written as
    itself, a larger one as 0x00 followed by two bytes, the big-endian
    value of the length modulo 65536 (so lengths above 65535 are silently
    cut, where [encodeTLVLength] throws). *)
Theorem encodeLength_value n :
  (n <= 255 -> encodeLength n = [n])
  /\ (255 < n ->
      exists hi lo,
        encodeLength n = [0x00; hi; lo]
        /\ is_byte hi /\ is_byte lo
        /\ 256 * hi + lo = n mod 65536).
Proof.
  unfold encodeLength. split; intros Hn.
  - by destruct (Z.leb_spec n 255); [|lia].
  - destruct (Z.leb_spec n 255); [lia|].
    eexists _, _. split; [reflexivity|].
    change 0xff with (Z.ones 8). rewrite !Z.land_ones, Z.shiftr_div_pow2 by lia.
    change (2 ^ 8) with 256. unfold is_byte.
    pose proof (Z.mod_pos_bound (n / 256) 256).
    pose proof (Z.mod_pos_bound n 256).
    split; [lia|]. split; [lia|].
    change 65536 with (256 * 256).
    rewrite Z.rem_mul_r by lia. lia.
Qed.

Lemma encodeLength_value_witness :
  encodeLength 200 = [200]
  /\ exists hi lo,
       encodeLength 70000 = [0x00; hi; lo]
       /\ is_byte hi /\ is_byte lo
       /\ 256 * hi + lo = 70000 mod 65536.
Proof.
  split.
  - apply (proj1 (encodeLength_value 200)). lia.
  - apply (proj2 (encodeLength_value 70000)). lia.
Defined.

(** ** utils/helpers.ts: hexToUint8Array and bytesToHex *)

(** X5.  Bytes written by [bytesToHex] are read back unchanged by
    [hexToUint8Array], and the text has two characters per byte. *)
Theorem bytesToHex_roundtrip (bs : bytes) :
  Forall is_byte bs ->
  hexToUint8Array (bytesToHex bs) = Ok bs
  /\ String.length (bytesToHex bs) = (2 * length bs)%nat.
Proof.
  intros Hall. split.
  - by apply hexToUint8Array_bytesToHex.
  - by apply bytesToHex_length.
Qed.

Lemma bytesToHex_roundtrip_witness :
  hexToUint8Array (bytesToHex [0; 10; 255]) = Ok [0; 10; 255]
  /\ String.length (bytesToHex [0; 10; 255]) = (2 * length [0; 10; 255])%nat.
Proof.
  apply (bytesToHex_roundtrip [0; 10; 255]).
  repeat constructor; unfold is_byte; lia.
Defined.

Lemma digit_pair_ok_all :
  forallb (fun a => forallb (digit_pair_ok a) lower_hex_digits) lower_hex_digits = true.
Proof. vm_compute. reflexivity. Qed.

Lemma lower_hex_pair a b :
  lower_hex a = true -> lower_hex b = true ->
  exists v, parseInt16 (String a (String b EmptyString)) = Some v
    /\ is_byte v
    /\ padStart2 (Number_toString16 v) = String a (String b EmptyString).
Proof.
  unfold lower_hex. rewrite !existsb_exists.
  intros (a' & Ha & Ea) (b' & Hb & Eb).
  apply Ascii.eqb_eq in Ea, Eb. subst a' b'.
  pose proof digit_pair_ok_all as Hall.
  rewrite forallb_forall in Hall. specialize (Hall a Ha).
  rewrite forallb_forall in Hall. specialize (Hall b Hb).
  unfold digit_pair_ok in Hall.
  destruct (parseInt16 _) as [v|]; [|done].
  apply andb_prop in Hall as [Hr He]. apply andb_prop in Hr as [H0 H1].
  exists v. split; [done|]. split; [unfold is_byte; lia|].
  by apply String.eqb_eq.
Qed.

Lemma hexToUint8Array_loop_text n : forall s,
  String.length s = (2 * n)%nat -> all_lower_hex s = true ->
  exists bs, hexToUint8Array_loop s = Ok bs /\ Forall is_byte bs /\ bytesToHex bs = s.
Proof.
  induction n as [|n IH]; intros s Hlen Hhex.
  - destruct s; [|discriminate]. by exists [].
  - destruct s as [|a [|b rest]]; try (simpl in Hlen; lia).
    cbn [all_lower_hex] in Hhex.
    apply andb_prop in Hhex as [Ha Hhex]. apply andb_prop in Hhex as [Hb Hrest].
    destruct (lower_hex_pair a b Ha Hb) as (v & Hv & Hbyte & Hpad).
    destruct (IH rest) as (bs & Hbs & Hall & Htext); [simpl in Hlen; lia|done|].
    exists (v :: bs). cbn [hexToUint8Array_loop]. rewrite Hv, Hbs.
    split; [done|]. split; [by constructor|].
    cbn [bytesToHex foldr]. fold (bytesToHex bs). by rewrite Hpad, Htext.
Qed.

(** X6.  Text made of an even number of lower-case hexadecimal digits is
    read by [hexToUint8Array] into bytes that [bytesToHex] writes back as
    the same text. *)
Theorem hex_text_roundtrip (s : string) :
  Nat.even (String.length s) = true ->
  all_lower_hex s = true ->
  exists bs, hexToUint8Array s = Ok bs /\ bytesToHex bs = s.
Proof.
  intros Heven Hhex. apply Nat.even_spec in Heven as [n Hn].
  destruct (hexToUint8Array_loop_text n s Hn Hhex) as (bs & Hbs & Hall & Htext).
  exists bs. split; [|done]. unfold hexToUint8Array.
  rewrite Hn. replace (Z.of_nat (2 * n) mod 2) with 0
    by (rewrite Nat2Z.inj_mul, Z.mul_comm, Z_mod_mult; done).
  simpl. rewrite Hbs. simpl. by rewrite ToUint8_bytes.
Qed.

Lemma hex_text_roundtrip_witness :
  exists bs, hexToUint8Array "04999e37" = Ok bs /\ bytesToHex bs = "04999e37"%string.
Proof. apply (hex_text_roundtrip "04999e37"); reflexivity. Defined.

Lemma hexToUint8Array_loop_length n : forall s vs,
  String.length s = (2 * n)%nat -> hexToUint8Array_loop s = Ok vs -> length vs = n.
Proof.
  induction n as [|n IH]; intros s vs Hlen.
  - destruct s; [|discriminate]. by intros [= <-].
  - destruct s as [|a [|b rest]]; try (simpl in Hlen; lia).
    cbn [hexToUint8Array_loop].
    destruct (parseInt16 _) as [v|]; [|done].
    destruct (hexToUint8Array_loop rest) as [ws| |] eqn:Hrest; try done.
    intros [= <-]. simpl. f_equal. apply (IH rest); [simpl in Hlen; lia|done].
Qed.

(** X7.  Whatever the text, [hexToUint8Array] either throws or returns one
    value per two characters, each of them a byte; a text of odd length is
    always refused with the length error. *)
Theorem hexToUint8Array_result (s : string) :
  (forall bs, hexToUint8Array s = Ok bs ->
     Forall is_byte bs /\ String.length s = (2 * length bs)%nat)
  /\ (Nat.odd (String.length s) = true ->
      hexToUint8Array s = Throw "Invalid hexadecimal string: length must be even.")
  /\ hexToUint8Array s <> OutOfFuel.
Proof.
  split; [|split].
  - unfold hexToUint8Array. intros bs.
    destruct (Z.eqb_spec (Z.of_nat (String.length s) mod 2) 0) as [Hev|]; [|done].
    simpl. destruct (hexToUint8Array_loop s) as [vs| |] eqn:Hvs; try done.
    intros [= <-]. split.
    + apply Forall_fmap, Forall_forall. intros v _. unfold is_byte, ToUint8. simpl.
      apply Z.mod_pos_bound. lia.
    + rewrite length_fmap.
      assert (exists n, String.length s = (2 * n)%nat) as [n Hn].
      { exists (Z.to_nat (Z.of_nat (String.length s) / 2)).
        pose proof (Z.div_mod (Z.of_nat (String.length s)) 2). lia. }
      by rewrite (hexToUint8Array_loop_length n s vs Hn Hvs).
  - intros Hodd. apply hexToUint8Array_odd.
    apply Nat.odd_spec in Hodd as [n Hn]. rewrite Hn.
    replace (Z.of_nat (2 * n + 1)) with (Z.of_nat n * 2 + 1) by lia.
    rewrite Z.add_comm, Z_mod_plus_full. done.
  - unfold hexToUint8Array. destruct (negb _); [done|].
    assert (Hloop : forall n t, (String.length t <= n)%nat -> hexToUint8Array_loop t <> OutOfFuel).
    { induction n as [|n IH]; intros t Ht.
      - destruct t; [done|simpl in Ht; lia].
      - destruct t as [|a [|b rest]]; [done| |].
        + simpl. by destruct (parseInt16 _).
        + cbn [hexToUint8Array_loop]. destruct (parseInt16 _); [|done].
          specialize (IH rest). destruct (hexToUint8Array_loop rest); try done.
          exfalso. apply IH; [simpl in Ht; lia|done]. }
    specialize (Hloop _ s (le_n _)).
    by destruct (hexToUint8Array_loop s).
Qed.

Lemma hexToUint8Array_result_witness :
  (Forall is_byte [255] /\ String.length "-1" = (2 * length [255])%nat)
  /\ hexToUint8Array "abc" = Throw "Invalid hexadecimal string: length must be even.".
Proof.
  split.
  - apply (proj1 (hexToUint8Array_result "-1") [255]). reflexivity.
  - apply (proj1 (proj2 (hexToUint8Array_result "abc"))). reflexivity.
Defined.

(** ** utils/helpers.ts: parseSecureObjectPayload *)

Lemma parse_step_keys payload index parsedData next parsedData' :
  (forall key value, parsedData !! key = Some value ->
     exists tag, tag ∈ payload /\ tagKey tag = Some key) ->
  parse_step payload index parsedData = (next, parsedData') ->
  forall key value, parsedData' !! key = Some value ->
    exists tag, tag ∈ payload /\ tagKey tag = Some key.
Proof.
  intros Hinv. unfold parse_step.
  destruct (decodeLength payload (index + 1)) as [length index1].
  intros [= <- <-] key value.
  destruct (get payload index) as [tag|] eqn:Htag; [|apply Hinv].
  simpl. destruct (tagKey tag) as [key'|] eqn:Hkey; [|apply Hinv].
  rewrite lookup_insert. case_decide as Hk; [|apply Hinv].
  intros _. subst key'. exists tag. split; [|done].
  apply get_Some in Htag as [_ Htag]. by eapply list_elem_of_lookup_2.
Qed.

Lemma parse_loop_keys payload fuel : forall index parsedData parsed,
  (forall key value, parsedData !! key = Some value ->
     exists tag, tag ∈ payload /\ tagKey tag = Some key) ->
  parse_loop fuel payload index parsedData = Ok parsed ->
  forall key value, parsed !! key = Some value ->
    exists tag, tag ∈ payload /\ tagKey tag = Some key.
Proof.
  induction fuel as [|fuel IH]; intros index parsedData parsed Hinv; simpl.
  - destruct (index <? len payload); [done|]. by intros [= <-].
  - destruct (index <? len payload); [|by intros [= <-]].
    destruct (parse_step payload index parsedData) as [next parsedData'] eqn:Hs.
    pose proof (parse_step_keys _ _ _ _ _ Hinv Hs) as Hinv'.
    destruct next as [index'|]; [by apply IH|]. by intros [= <-].
Qed.

(** X8.  Whatever numbers the payload holds, a key of the mapping returned
    by the parser is one of TAG_1 to TAG_6, and it is there only if the
    byte of that tag (0x41 to 0x46) occurs in the payload. *)
Theorem parseSecureObjectPayload_keys payload parsed key value :
  parseSecureObjectPayload payload = Ok parsed ->
  parsed !! key = Some value ->
  exists k : Z, 1 <= k <= 6 /\ (0x40 + k) ∈ payload
    /\ key = ("TAG_" +:+ Number_toString k)%string.
Proof.
  intros Hp Hk.
  assert (Hempty : forall key value, (∅ : gmap string bytes) !! key = Some value ->
            exists tag, tag ∈ payload /\ tagKey tag = Some key)
    by (by intros ? ?; rewrite lookup_empty).
  destruct (parse_loop_keys payload (S (length payload)) 0 ∅ parsed Hempty Hp
              key value Hk) as (tag & Hin & Htag).
  unfold tagKey in Htag.
  repeat match type of Htag with
  | (if ?t =? ?c then _ else _) = _ =>
      destruct (Z.eqb_spec t c) as [->|_];
        [injection Htag as <-;
         exists (c - 0x40); split; [lia|]; split; [exact Hin|reflexivity]|]
  end.
  discriminate.
Qed.

Lemma parseSecureObjectPayload_keys_witness :
  exists k : Z, 1 <= k <= 6 /\ (0x40 + k) ∈ [0x42; 1; 7]
    /\ "TAG_2"%string = ("TAG_" +:+ Number_toString k)%string.
Proof.
  apply (parseSecureObjectPayload_keys [0x42; 1; 7]
           {[ "TAG_2"%string := [7] ]} "TAG_2"%string [7]); reflexivity.
Defined.

(** A complete field followed by [rest]. *)
Lemma parse_field_then_rest tag n encoded value rest :
  encodeTLVLength n = Ok encoded ->
  len value = n -> n <= 65535 ->
  Forall is_byte rest ->
  exists parsed_rest,
    parseSecureObjectPayload rest = Ok parsed_rest
    /\ parseSecureObjectPayload (tag :: encoded ++ value ++ rest)
       = Ok match tagKey tag with
            | Some key => parsed_rest ∪ {[ key := value ]}
            | None => parsed_rest
            end.
Proof.
  intros He Hv Hn Hall. pose proof (len_nonneg value) as Hv0.
  destruct (parse_loop_bytes rest (length rest) 0 ∅ Hall) as (parsed_rest & Hrest & _);
    [by intros ? ?; rewrite lookup_empty|unfold len; lia|].
  exists parsed_rest. split.
  { unfold parseSecureObjectPayload. eapply parse_loop_fuel_le; [|exact Hrest]. lia. }
  unfold parseSecureObjectPayload.
  set (pre := tag :: encoded ++ value).
  replace (tag :: encoded ++ value ++ rest) with (pre ++ rest)
    by (unfold pre; simpl; by rewrite <- app_assoc).
  assert (Hpre : len pre = 1 + len encoded + n).
  { unfold pre, len in *. simpl. rewrite length_app. lia. }
  pose proof (len_nonneg encoded).
  cbn [parse_loop]. rewrite len_app.
  pose proof (len_nonneg rest).
  destruct (Z.ltb_spec 0 (len pre + len rest)); [|lia].
  unfold parse_step. change (0 + 1) with 1.
  pose proof (decodeLength_encode n encoded [tag] (value ++ rest)) as Hd.
  change (len [tag]) with 1 in Hd.
  replace ([tag] ++ encoded ++ value ++ rest) with (pre ++ rest) in Hd
    by (unfold pre; simpl; by rewrite <- app_assoc).
  rewrite Hd by (done || lia). cbn [fmap option_fmap option_map].
  assert (Hslice : slice (pre ++ rest) (1 + len encoded) (1 + len encoded + n) = value).
  { unfold pre. change (tag :: encoded ++ value) with ((tag :: encoded) ++ value).
    rewrite <- app_assoc.
    replace (1 + len encoded) with (len (tag :: encoded) + 0) by (unfold len; simpl; lia).
    rewrite <- Z.add_assoc, slice_app_shift by lia.
    rewrite slice_inside by (rewrite ?len_app; lia).
    replace (Z.to_nat (0 + n - 0)) with (length value) by (unfold len in *; lia).
    change (Z.to_nat 0) with 0%nat. by rewrite drop_0, take_app_length. }
  rewrite Hslice.
  replace (get (pre ++ rest) 0) with (Some tag) by done.
  replace (1 + len encoded + n) with (len pre + 0) by lia.
  rewrite parse_loop_shift by (done || lia).
  cbn [mbind option_bind].
  assert (Hfuel : forall m, parse_loop (length (pre ++ rest)) rest 0 m
                            = bind (Ok parsed_rest) (fun r => Ok (r ∪ m))).
  { intros m. rewrite <- (left_id_L ∅ (∪) m) at 1. rewrite parse_loop_union.
    erewrite (parse_loop_fuel_le rest (length rest)); [done| |exact Hrest].
    rewrite length_app. lia. }
  destruct (tagKey tag) as [key|].
  - rewrite Hfuel. simpl. by rewrite insert_empty.
  - rewrite Hfuel. simpl. by rewrite (right_id_L ∅ (∪)).
Qed.

(** X9.  The parser reads one field after the other: a payload that starts
    with a complete field (tag, encoded length, that many value bytes)
    and goes on with [rest] gives what [rest] alone gives, plus that
    field under its key unless [rest] holds the same key (a later field
    replaces an earlier one); a field whose tag is not one of the six is
    skipped. *)
Theorem parseSecureObjectPayload_sequence tag n encoded value rest :
  encodeTLVLength n = Ok encoded ->
  len value = n -> n <= 65535 ->
  Forall is_byte rest ->
  exists parsed_rest,
    parseSecureObjectPayload rest = Ok parsed_rest
    /\ parseSecureObjectPayload (tag :: encoded ++ value ++ rest)
       = Ok match tagKey tag with
            | Some key => parsed_rest ∪ {[ key := value ]}
            | None => parsed_rest
            end.
Proof. apply parse_field_then_rest. Qed.

Lemma parseSecureObjectPayload_sequence_witness :
  exists parsed_rest,
    parseSecureObjectPayload [0x42; 1; 9; 0x41; 0] = Ok parsed_rest
    /\ parseSecureObjectPayload (0x41 :: [2] ++ [7; 8] ++ [0x42; 1; 9; 0x41; 0])
       = Ok (parsed_rest ∪ {[ "TAG_1"%string := [7; 8] ]}).
Proof.
  apply (parseSecureObjectPayload_sequence 0x41 2 [2] [7; 8] [0x42; 1; 9; 0x41; 0]);
    [reflexivity | reflexivity | lia |].
  repeat constructor; unfold is_byte; lia.
Defined.

(** X10.  The parser relies on its input being bytes: on an array that
    starts with any tag followed by the number -2 the index comes back to
    0 after every turn, so the loop is still running whatever number of
    turns it is given. *)
Theorem parse_loop_negative_length tag rest fuel parsedData :
  parse_loop fuel (tag :: -2 :: rest) 0 parsedData = OutOfFuel.
Proof.
  revert parsedData. induction fuel as [|fuel IH]; intros parsedData; cbn [parse_loop].
  - unfold len. simpl. by destruct (Z.ltb_spec 0 (Z.pos (Pos.succ (Pos.of_succ_nat (length rest))))); [|lia].
  - destruct (Z.ltb_spec 0 (len (tag :: -2 :: rest))) as [_|Hlen];
      [|unfold len in Hlen; simpl in Hlen; lia].
    unfold parse_step, decodeLength. change (0 + 1) with 1.
    change (get (tag :: -2 :: rest) 1) with (Some (-2)).
    change (-2 =? 0x81) with false. change (-2 =? 0x82) with false.
    cbn [fmap option_fmap option_map]. change (1 + 1 + -2) with 0.
    destruct (get (tag :: -2 :: rest) 0 ≫= tagKey); apply IH.
Qed.

(** ** utils/helpers.ts: verifyAndExtractParsedAddress, verifyData *)

Lemma encodeTLVLength_bytes n encoded :
  0 <= n <= 65535 -> encodeTLVLength n = Ok encoded -> Forall is_byte encoded.
Proof.
  intros Hn. unfold encodeTLVLength.
  destruct (byte_split n Hn) as (Hhi & Hlo & _).
  repeat case_match; intros [= <-]; repeat constructor; unfold is_byte in *; lia.
Qed.

Lemma encodeTLVLength_Ok n :
  n <= 65535 -> exists encoded, encodeTLVLength n = Ok encoded.
Proof. intros Hn. unfold encodeTLVLength. repeat case_match; try by eexists. lia. Qed.

Lemma field_bytes tag value :
  is_byte tag -> Forall is_byte value -> len value <= 65535 ->
  Forall is_byte (field tag value).
Proof.
  intros Ht Hv Hn. unfold field. pose proof (len_nonneg value).
  destruct (encodeTLVLength_Ok (len value) Hn) as [encoded He]. rewrite He.
  constructor; [done|]. apply Forall_app. split; [|done].
  by apply (encodeTLVLength_bytes (len value)).
Qed.

Lemma parse_field tag value rest :
  len value <= 65535 -> Forall is_byte rest ->
  exists parsed_rest,
    parseSecureObjectPayload rest = Ok parsed_rest
    /\ parseSecureObjectPayload (field tag value ++ rest)
       = Ok match tagKey tag with
            | Some key => parsed_rest ∪ {[ key := value ]}
            | None => parsed_rest
            end.
Proof.
  intros Hn Hall. unfold field.
  destruct (encodeTLVLength_Ok (len value) Hn) as [encoded He]. rewrite He.
  destruct (parse_field_then_rest tag (len value) encoded value rest)
    as (parsed_rest & Hrest & Hp); try done.
  exists parsed_rest. split; [done|].
  by rewrite <- app_comm_cons, <- app_assoc.
Qed.

(** The mapping read from the six fields of a stored object. *)
Lemma parse_object_fields t1 t2 t3 t4 t5 t6 :
  Forall (fun t => Forall is_byte t /\ len t <= 65535) [t1; t2; t3; t4; t5; t6] ->
  exists parsed,
    parseSecureObjectPayload (object_fields t1 t2 t3 t4 t5 t6) = Ok parsed
    /\ parsed !! "TAG_1"%string = Some t1 /\ parsed !! "TAG_2"%string = Some t2
    /\ parsed !! "TAG_3"%string = Some t3 /\ parsed !! "TAG_4"%string = Some t4
    /\ parsed !! "TAG_5"%string = Some t5 /\ parsed !! "TAG_6"%string = Some t6.
Proof.
  intros Hall.
  repeat match goal with
  | H : Forall _ (_ :: _) |- _ => apply Forall_cons in H as [[? ?] H]
  end.
  assert (Hb : forall k, 0x41 <= k <= 0x46 -> is_byte k) by (unfold is_byte; lia).
  unfold object_fields.
  destruct (parse_field 0x46 t6 []) as (p6 & P6 & Q6); [done|done|].
  rewrite app_nil_r in Q6. injection P6 as <-.
  destruct (parse_field 0x45 t5 (field 0x46 t6)) as (p5 & P5 & Q5);
    [done|by apply field_bytes; auto with lia|].
  rewrite Q6 in P5. injection P5 as <-.
  destruct (parse_field 0x44 t4 (field 0x45 t5 ++ field 0x46 t6)) as (p4 & P4 & Q4);
    [done|by repeat (apply Forall_app; split); apply field_bytes; auto with lia|].
  rewrite Q5 in P4. injection P4 as <-.
  destruct (parse_field 0x43 t3 (field 0x44 t4 ++ field 0x45 t5 ++ field 0x46 t6))
    as (p3 & P3 & Q3);
    [done|by repeat (apply Forall_app; split); apply field_bytes; auto with lia|].
  rewrite Q4 in P3. injection P3 as <-.
  destruct (parse_field 0x42 t2
              (field 0x43 t3 ++ field 0x44 t4 ++ field 0x45 t5 ++ field 0x46 t6))
    as (p2 & P2 & Q2);
    [done|by repeat (apply Forall_app; split); apply field_bytes; auto with lia|].
  rewrite Q3 in P2. injection P2 as <-.
  destruct (parse_field 0x41 t1
              (field 0x42 t2 ++ field 0x43 t3 ++ field 0x44 t4 ++ field 0x45 t5
                 ++ field 0x46 t6))
    as (p1 & P1 & Q1);
    [done|by repeat (apply Forall_app; split); apply field_bytes; auto with lia|].
  rewrite Q2 in P1. injection P1 as <-.
  eexists. split; [exact Q1|].
  cbn [tagKey Z.eqb Pos.eqb].
  repeat split; rewrite !lookup_union, !lookup_singleton, lookup_empty;
    repeat case_decide; try done.
Qed.

Section VerifierProperties.
Context (C : Crypto).

(** Verification of a response made of the six fields. *)
Lemma verifyData_fields t1 t2 t3 t4 t5 t6 attestationKey errorMsg :
  Forall (fun t => Forall is_byte t /\ len t <= 65535) [t1; t2; t3; t4; t5; t6] ->
  verifyData C (object_fields t1 t2 t3 t4 t5 t6) attestationKey errorMsg
  = match p256_verify C (HexBytes t6) (sha256 C (t1 ++ t2 ++ t3 ++ t4 ++ t5))
            attestationKey with
    | Ok true => Ok {| data := t1; attributes := extractAttributes t2 |}
    | Ok false => Throw errorMsg
    | Throw e => Throw e
    | OutOfFuel => OutOfFuel
    end.
Proof.
  intros Hall.
  destruct (parse_object_fields t1 t2 t3 t4 t5 t6 Hall)
    as (parsed & Hp & L1 & L2 & L3 & L4 & L5 & L6).
  repeat match goal with
  | H : Forall _ (_ :: _) |- _ => apply Forall_cons in H as [[? _] H]
  end.
  unfold verifyData, verifyAndExtractParsedAddress, spread.
  rewrite Hp. cbn [bind]. rewrite L1, L2, L3, L4, L5, L6. cbn [bind default].
  rewrite !ToUint8_bytes by (repeat (apply Forall_app; split); done).
  by destruct (p256_verify C _ _ _) as [[|]| |].
Qed.

(** X11.  A response made of the six fields of a stored object is accepted
    exactly on the verdict of the signature check: the check is made on
    field 6 as signature and on the hash of fields 1 to 5 joined in that
    order; on [true] the object returned has field 1 as data and the
    attributes read from field 2, on [false] the caller's message is
    thrown, and an error of the check is passed on. *)
Theorem verifyData_object t1 t2 t3 t4 t5 t6 attestationKey errorMsg :
  Forall (fun t => Forall is_byte t /\ len t <= 65535) [t1; t2; t3; t4; t5; t6] ->
  verifyData C (object_fields t1 t2 t3 t4 t5 t6) attestationKey errorMsg
  = match p256_verify C (HexBytes t6) (sha256 C (t1 ++ t2 ++ t3 ++ t4 ++ t5))
            attestationKey with
    | Ok true => Ok {| data := t1; attributes := extractAttributes t2 |}
    | Ok false => Throw errorMsg
    | Throw e => Throw e
    | OutOfFuel => OutOfFuel
    end.
Proof. apply verifyData_fields. Qed.

(** X12.  When the mapping read from a response lacks one of the fields 1
    to 5, [verifyData] throws the engine's error for spreading an absent
    value, and the error names the first field that is absent: it is the
    same whatever the caller's message, the key and the signature check
    are, the signature not being looked at.  When only field 6 is absent
    nothing is thrown for that: the signature check is made with an empty
    signature. *)
Theorem verifyData_missing_field response parsed attestationKey errorMsg :
  parseSecureObjectPayload response = Ok parsed ->
  (forall k, 1 <= k <= 5 ->
     parsed !! ("TAG_" +:+ Number_toString k)%string = None ->
     (forall j, 1 <= j < k ->
        parsed !! ("TAG_" +:+ Number_toString j)%string <> None) ->
     verifyData C response attestationKey errorMsg
     = Throw (not_iterable ("TAG_" +:+ Number_toString k)))
  /\ (forall t1 t2 t3 t4 t5,
        parsed !! "TAG_1"%string = Some t1 -> parsed !! "TAG_2"%string = Some t2 ->
        parsed !! "TAG_3"%string = Some t3 -> parsed !! "TAG_4"%string = Some t4 ->
        parsed !! "TAG_5"%string = Some t5 -> parsed !! "TAG_6"%string = None ->
        Forall is_byte (t1 ++ t2 ++ t3 ++ t4 ++ t5) ->
        verifyData C response attestationKey errorMsg
        = match p256_verify C (HexBytes []) (sha256 C (t1 ++ t2 ++ t3 ++ t4 ++ t5))
                  attestationKey with
          | Ok true => Ok {| data := t1; attributes := extractAttributes t2 |}
          | Ok false => Throw errorMsg
          | Throw e => Throw e
          | OutOfFuel => OutOfFuel
          end).
Proof.
  intros Hp. unfold verifyData, verifyAndExtractParsedAddress, spread.
  rewrite Hp. cbn [bind]. split.
  - intros k Hk Hnone Hprev.
    assert (k = 1 \/ k = 2 \/ k = 3 \/ k = 4 \/ k = 5) as Hcases by lia.
    assert (H1 : 1 < k -> exists t, parsed !! "TAG_1"%string = Some t).
    { intros Hj. specialize (Hprev 1 ltac:(lia)).
      destruct (parsed !! "TAG_1"%string) as [t|] eqn:E; [by exists t|].
      exfalso. by apply Hprev. }
    assert (H2 : 2 < k -> exists t, parsed !! "TAG_2"%string = Some t).
    { intros Hj. specialize (Hprev 2 ltac:(lia)).
      destruct (parsed !! "TAG_2"%string) as [t|] eqn:E; [by exists t|].
      exfalso. by apply Hprev. }
    assert (H3 : 3 < k -> exists t, parsed !! "TAG_3"%string = Some t).
    { intros Hj. specialize (Hprev 3 ltac:(lia)).
      destruct (parsed !! "TAG_3"%string) as [t|] eqn:E; [by exists t|].
      exfalso. by apply Hprev. }
    assert (H4 : 4 < k -> exists t, parsed !! "TAG_4"%string = Some t).
    { intros Hj. specialize (Hprev 4 ltac:(lia)).
      destruct (parsed !! "TAG_4"%string) as [t|] eqn:E; [by exists t|].
      exfalso. by apply Hprev. }
    clear Hprev.
    destruct Hcases as [->|[->|[->|[->| ->]]]].
    + assert (HN : parsed !! "TAG_1"%string = None) by exact Hnone.
      by rewrite HN.
    + assert (HN : parsed !! "TAG_2"%string = None) by exact Hnone.
      destruct (H1 ltac:(lia)) as [t1 L1].
      by rewrite L1, HN.
    + assert (HN : parsed !! "TAG_3"%string = None) by exact Hnone.
      destruct (H1 ltac:(lia)) as [t1 L1]. destruct (H2 ltac:(lia)) as [t2 L2].
      by rewrite L1, L2, HN.
    + assert (HN : parsed !! "TAG_4"%string = None) by exact Hnone.
      destruct (H1 ltac:(lia)) as [t1 L1]. destruct (H2 ltac:(lia)) as [t2 L2].
      destruct (H3 ltac:(lia)) as [t3 L3].
      by rewrite L1, L2, L3, HN.
    + assert (HN : parsed !! "TAG_5"%string = None) by exact Hnone.
      destruct (H1 ltac:(lia)) as [t1 L1]. destruct (H2 ltac:(lia)) as [t2 L2].
      destruct (H3 ltac:(lia)) as [t3 L3]. destruct (H4 ltac:(lia)) as [t4 L4].
      by rewrite L1, L2, L3, L4, HN.
  - intros t1 t2 t3 t4 t5 L1 L2 L3 L4 L5 L6 Hall.
    rewrite L1, L2, L3, L4, L5, L6. cbn [bind default].
    cbn [fmap list_fmap]. rewrite (ToUint8_bytes (t1 ++ _)) by done.
    by destruct (p256_verify C _ _ _) as [[|]| |].
Qed.

End VerifierProperties.

Lemma verifyData_object_witness :
  verifyData (Fixture.stub false)
    (object_fields [1; 2; 3; 4] Scenario.key_attributes [] [] [] [9])
    [0x04] "Reading Public Key failed"
  = Throw "Reading Public Key failed"
  /\ verifyData (Fixture.stub true)
       (object_fields [1; 2; 3; 4] Scenario.key_attributes [] [] [] [9])
       [0x04] "Reading Public Key failed"
     = Ok {| data := [1; 2; 3; 4];
             attributes := extractAttributes Scenario.key_attributes |}.
Proof.
  assert (Hall : Forall (fun t => Forall is_byte t /\ len t <= 65535)
                   [[1; 2; 3; 4]; Scenario.key_attributes; []; []; []; [9]]).
  { repeat constructor; unfold is_byte, len; simpl; lia. }
  split.
  - apply (verifyData_object (Fixture.stub false) [1; 2; 3; 4]
             Scenario.key_attributes [] [] [] [9] [0x04]
             "Reading Public Key failed" Hall).
  - apply (verifyData_object (Fixture.stub true) [1; 2; 3; 4]
             Scenario.key_attributes [] [] [] [9] [0x04]
             "Reading Public Key failed" Hall).
Defined.

Lemma verifyData_missing_field_witness :
  verifyData Fixture.accept_all [0x41; 1; 7; 0x42; 0] [0x04] "Reading Public Key failed"
  = Throw "parsedData.TAG_3 is not iterable".
Proof.
  apply (proj1 (verifyData_missing_field Fixture.accept_all [0x41; 1; 7; 0x42; 0]
                  {[ "TAG_1"%string := ([7] : bytes);
                     "TAG_2"%string := ([] : bytes) ]}
                  [0x04] "Reading Public Key failed" eq_refl) 3);
    [lia | reflexivity |].
  intros j Hj. assert (j = 1 \/ j = 2) as [-> | ->] by lia; vm_compute; discriminate.
Defined.

(** ** utils/helpers.ts: extractAttributes *)

(** X13.  [extractAttributes] accepts a blob of any length and never
    fails: the policy is what lies between offset 14 and the last byte
    (nothing when the blob has 15 bytes or fewer), the origin is the last
    byte of the blob whatever other field that byte also belongs to, and
    it is absent only for the empty blob. *)
Theorem extractAttributes_any_length (blob : bytes) :
  policy (extractAttributes blob) = take (length blob - 15) (drop 14 blob)
  /\ origin (extractAttributes blob) = last blob
  /\ objectId (extractAttributes blob) = take 4 blob
  /\ maxAuthAttempt (extractAttributes blob) = take 1 (drop 13 blob).
Proof.
  unfold extractAttributes. cbn [policy origin objectId maxAuthAttempt].
  split; [|split; [|split]].
  - destruct blob as [|b blob].
    + reflexivity.
    + replace (len (b :: blob) - 1) with (Z.of_nat (length blob)) by (unfold len; simpl; lia).
      change 14 with (Z.of_nat 14). rewrite slice_take_drop. f_equal; simpl; lia.
  - destruct blob as [|b blob]; [reflexivity|].
    replace (len (b :: blob) - 1) with (Z.of_nat (length blob)) by (unfold len; simpl; lia).
    rewrite get_lookup, last_lookup. done.
  - change 0 with (Z.of_nat 0). change 4 with (Z.of_nat 4).
    by rewrite slice_take_drop, drop_0.
  - change 13 with (Z.of_nat 13). change 14 with (Z.of_nat 14).
    by rewrite slice_take_drop.
Qed.

(** ** The NfcCore class: what a session sends and when it is released *)

Section SessionProperties.
Import NfcCore.
Context (C : Crypto) (A : Apdu) (nfcHandler : INfcHandler) (isAndroid : bool).

Lemma after_nil s : after s [] = s.
Proof. destruct s. unfold after. simpl. by rewrite app_nil_r. Qed.

Lemma appends_ret P {T} (a : T) : appends P (ret a).
Proof. intros s. exists []. by rewrite after_nil. Qed.

Lemma appends_throw P {T} e : appends P (throw (A:=T) e).
Proof. intros s. exists []. by rewrite after_nil. Qed.

Lemma appends_lift P {T} (r : result T) : appends P (lift r).
Proof. intros s. exists []. by rewrite after_nil. Qed.

Lemma appends_invoke (P : call -> Prop) {T} c (answer : list call -> result T) :
  P c -> appends P (invoke c answer).
Proof. intros Hc s. exists [c]. split; [done|]. by constructor. Qed.

Lemma appends_bind P {T U} (m : M T) (k : T -> M U) :
  appends P m -> (forall a, appends P (k a)) -> appends P (bindM m k).
Proof.
  intros Hm Hk s. destruct (Hm s) as (cs & Hs & Hcs). unfold bindM.
  destruct (m s) as [[a| |] s']; simpl in Hs; subst s'; [|by exists cs..].
  destruct (Hk a (after s cs)) as (cs' & Hs' & Hcs').
  exists (cs ++ cs'). rewrite Hs', after_after. split; [done|].
  by apply Forall_app.
Qed.

Lemma appends_try_catch P {T} (body : M T) (handler : string -> M T) :
  appends P body -> (forall e, appends P (handler e)) ->
  appends P (try_catch body handler).
Proof.
  intros Hm Hk s. destruct (Hm s) as (cs & Hs & Hcs). unfold try_catch.
  destruct (body s) as [[a|e|] s']; simpl in Hs; subst s'; [by exists cs| |by exists cs].
  destruct (Hk e (after s cs)) as (cs' & Hs' & Hcs').
  exists (cs ++ cs'). rewrite Hs', after_after. split; [done|].
  by apply Forall_app.
Qed.

Lemma appends_transceiveAndCheck command errorMsg :
  appends not_release (transceiveAndCheck nfcHandler command errorMsg).
Proof.
  intros s. exists [Transceive command].
  split; [apply transceiveAndCheck_state|]. by constructor.
Qed.

Lemma appends_ensureReady : appends not_release (ensureReady A nfcHandler isAndroid).
Proof.
  intros s. unfold ensureReady. destruct (isReady s); cbn [negb].
  - revert s. apply appends_bind; [by apply appends_invoke|]. intros _.
    apply appends_bind.
    { destruct isAndroid; [by apply appends_invoke|apply appends_ret]. }
    intros _. apply appends_bind; [apply appends_transceiveAndCheck|].
    intros _. apply appends_ret.
  - apply appends_throw.
Qed.

Lemma appends_fallback readCommand createCommand key message createMessage :
  appends not_release
    (readStoredDataWithFallback C nfcHandler readCommand createCommand key message
       createMessage).
Proof.
  unfold readStoredDataWithFallback.
  apply appends_bind; [|intros returned; apply appends_lift].
  apply appends_try_catch.
  - apply appends_bind; [apply appends_transceiveAndCheck|]. intros response.
    apply appends_ret.
  - intros _. destruct createCommand as [create|]; [|apply appends_ret].
    destruct (truthy createMessage) as [msg|]; [|apply appends_ret].
    apply appends_bind; [apply appends_transceiveAndCheck|]. intros _.
    apply appends_bind; [apply appends_transceiveAndCheck|]. intros response.
    apply appends_ret.
Qed.

(** The release, after a body that never releases. *)
Lemma try_finally_release {T} (body : M T) s :
  appends not_release body ->
  let run := try_finally body (close nfcHandler) s in
  fst run <> OutOfFuel ->
  exists cs,
    snd run = after s (cs ++ [CancelTechnologyRequest])
    /\ Forall not_release cs
    /\ (forall e, cancelTechnologyRequest nfcHandler (calls s ++ cs) = Throw e ->
          fst run = Throw e)
    /\ (cancelTechnologyRequest nfcHandler (calls s ++ cs) = Ok tt ->
        fst run = fst (body s)).
Proof.
  intros Hb run Hrun. destruct (Hb s) as (cs & Hs & Hcs). exists cs.
  unfold run, try_finally, close, invoke in *.
  destruct (body s) as [r s']. simpl in Hs. subst s'. cbn [calls after] in *.
  destruct r as [a|e|]; [| |done];
    (split; [destruct (cancelTechnologyRequest nfcHandler (calls s ++ cs));
             unfold after; simpl; by rewrite <- app_assoc|]);
    (split; [done|]); (split; [by intros ? ->|by intros ->]).
Qed.

(** X14.  Each of the two operations releases the technology request
    exactly once, as its last call, whenever it returns or throws: the
    calls it adds are calls other than the release, followed by the
    release.  An error thrown by the release is the error the caller
    gets, whatever the operation had returned or thrown before. *)
Theorem release_once_and_last payload s :
  let read := readSecureElement C A nfcHandler isAndroid s in
  let sign := signRawPayload A nfcHandler isAndroid payload s in
  (fst read <> OutOfFuel ->
   exists cs,
     snd read = after s (cs ++ [CancelTechnologyRequest])
     /\ Forall not_release cs
     /\ (forall e, cancelTechnologyRequest nfcHandler (calls s ++ cs) = Throw e ->
           fst read = Throw e))
  /\ (fst sign <> OutOfFuel ->
      exists cs,
        snd sign = after s (cs ++ [CancelTechnologyRequest])
        /\ Forall not_release cs
        /\ (forall e, cancelTechnologyRequest nfcHandler (calls s ++ cs) = Throw e ->
              fst sign = Throw e)).
Proof.
  split; intros Hrun.
  - unfold readSecureElement in *.
    edestruct (try_finally_release (T:=SecureElement)) as (cs & Hs & Hcs & He & _);
      [|exact Hrun|by exists cs].
    apply appends_try_catch; [|intros; apply appends_throw].
    apply appends_bind; [apply appends_ensureReady|]. intros _.
    apply appends_bind; [apply appends_transceiveAndCheck|]. intros response.
    apply appends_bind; [apply appends_lift|]. intros key.
    apply appends_bind.
    { unfold readStoredPubkey. apply appends_bind; [apply appends_fallback|].
      intros; apply appends_lift. }
    intros pub. apply appends_bind.
    { unfold readStoredAsset. apply appends_bind; [apply appends_fallback|].
      intros; apply appends_lift. }
    intros asset. apply appends_ret.
  - unfold signRawPayload in *.
    edestruct (try_finally_release (T:=bytes)) as (cs & Hs & Hcs & He & _);
      [|exact Hrun|by exists cs].
    apply appends_try_catch; [|intros; apply appends_throw].
    destruct (len payload >? MAX_APDU_SIZE); [apply appends_throw|].
    apply appends_bind; [apply appends_ensureReady|]. intros _.
    apply appends_bind; [apply appends_transceiveAndCheck|]. intros response.
    apply appends_ret.
Qed.

End SessionProperties.

Lemma release_once_and_last_witness :
  exists cs,
    snd (NfcCore.signRawPayload Fixture.apdu
           (Provisioned.stuck_release [Fixture.success []; Fixture.success [1; 2; 3; 4; 5]])
           false [7] Fixture.ready)
    = NfcCore.after Fixture.ready (cs ++ [CancelTechnologyRequest])
    /\ Forall not_release cs
    /\ (forall e,
          cancelTechnologyRequest
            (Provisioned.stuck_release [Fixture.success []; Fixture.success [1; 2; 3; 4; 5]])
            (NfcCore.calls Fixture.ready ++ cs) = Throw e ->
          fst (NfcCore.signRawPayload Fixture.apdu
                 (Provisioned.stuck_release
                    [Fixture.success []; Fixture.success [1; 2; 3; 4; 5]])
                 false [7] Fixture.ready) = Throw e).
Proof.
  apply (proj2 (release_once_and_last Fixture.accept_all Fixture.apdu
                  (Provisioned.stuck_release
                     [Fixture.success []; Fixture.success [1; 2; 3; 4; 5]])
                  false [7] Fixture.ready)).
  discriminate.
Defined.

Section FailFast.
Import NfcCore.
Context (C : Crypto) (A : Apdu) (nfcHandler : INfcHandler) (isAndroid : bool).

Abbreviation release := (cancelTechnologyRequest nfcHandler).

Lemma ensureReady_not_ready s :
  isReady s = false ->
  ensureReady A nfcHandler isAndroid s
  = (Throw "NFC is not supported on this device.", s).
Proof. intros Hr. unfold ensureReady. by rewrite Hr. Qed.

(** X15.  On an instance that is not ready both operations fail fast:
    nothing is asked of the handler except the release, and unless the
    release itself fails the error is "NFC is not supported on this
    device." *)
Theorem not_ready_fails_fast payload s :
  isReady s = false ->
  (snd (readSecureElement C A nfcHandler isAndroid s) = after s [CancelTechnologyRequest]
   /\ (release (calls s) = Ok tt ->
       fst (readSecureElement C A nfcHandler isAndroid s)
       = Throw "NFC is not supported on this device."))
  /\ (len payload <= MAX_APDU_SIZE ->
      snd (signRawPayload A nfcHandler isAndroid payload s)
      = after s [CancelTechnologyRequest]
      /\ (release (calls s) = Ok tt ->
          fst (signRawPayload A nfcHandler isAndroid payload s)
          = Throw "NFC is not supported on this device.")).
Proof.
  intros Hr. pose proof (ensureReady_not_ready s Hr) as He. split.
  - unfold readSecureElement. erewrite try_finally_close.
    2:{ rewrite try_catch_rethrow. apply (bindM_Throw _ _ _ _ _ He). }
    2:{ done. }
    split; [done|]. simpl. by intros ->.
  - intros Hsize. unfold signRawPayload. erewrite try_finally_close.
    2:{ rewrite try_catch_rethrow.
        destruct (Z.gtb_spec (len payload) MAX_APDU_SIZE); [lia|].
        apply (bindM_Throw _ _ _ _ _ He). }
    2:{ done. }
    split; [done|]. simpl. by intros ->.
Qed.

(** X16.  A payload of more than 900 bytes is refused before anything is
    asked of the chip, ready or not: the only call made is the release,
    and unless the release fails the error names the limit and the size
    of the payload. *)
Theorem oversize_payload_refused payload s :
  MAX_APDU_SIZE < len payload ->
  snd (signRawPayload A nfcHandler isAndroid payload s)
  = after s [CancelTechnologyRequest]
  /\ (release (calls s) = Ok tt ->
      fst (signRawPayload A nfcHandler isAndroid payload s)
      = Throw ("Transaction size cannot exceed 900 bytes, Size: "
               +:+ Number_toString (len payload))).
Proof.
  intros Hsize. unfold signRawPayload. erewrite try_finally_close.
  2:{ rewrite try_catch_rethrow.
      destruct (Z.gtb_spec (len payload) MAX_APDU_SIZE); [|lia]. reflexivity. }
  2:{ done. }
  split; [done|]. simpl. by intros ->.
Qed.

Lemma ensureReady_select_refused s response :
  isReady s = true ->
  requestTechnology nfcHandler (calls s) IsoDep = Ok tt ->
  (isAndroid = true ->
   setTimeout nfcHandler (calls s ++ [RequestTechnology IsoDep]) TIMEOUT = Ok tt) ->
  transceive nfcHandler (calls s ++ opening isAndroid) (selectApplet A AID)
  = Ok response ->
  (forall body, response <> body ++ [0x90; 0x00]) ->
  ensureReady A nfcHandler isAndroid s
  = (Throw "Selecting Applet failed",
     after s (opening isAndroid ++ [Transceive (selectApplet A AID)])).
Proof.
  intros Hready Hreq Htime Hsel Hbad. unfold ensureReady. rewrite Hready. cbn [negb].
  unfold opening in *.
  erewrite bindM_Ok; [|unfold invoke; by rewrite Hreq].
  destruct isAndroid.
  - erewrite bindM_Ok; [|unfold invoke; cbn [calls]; by rewrite Htime].
    erewrite bindM_Throw.
    2:{ apply transceiveAndCheck_failure with (response := response); [|done].
        cbn [calls]. rewrite <- app_assoc. exact Hsel. }
    unfold after. cbn [calls isReady]. by rewrite <- !app_assoc.
  - erewrite bindM_Ok; [|reflexivity].
    erewrite bindM_Throw.
    2:{ apply transceiveAndCheck_failure with (response := response); [|done].
        cbn [calls]. exact Hsel. }
    unfold after. cbn [calls isReady]. by rewrite <- !app_assoc.
Qed.

(** X17.  When the chip answers the applet selection with anything but
    0x90,0x00 no further command is sent: neither the certificate read
    nor the sign command (and so not the payload) reaches the chip; the
    session is released and the error is "Selecting Applet failed". *)
Theorem select_refused payload s response :
  isReady s = true ->
  requestTechnology nfcHandler (calls s) IsoDep = Ok tt ->
  (isAndroid = true ->
   setTimeout nfcHandler (calls s ++ [RequestTechnology IsoDep]) TIMEOUT = Ok tt) ->
  transceive nfcHandler (calls s ++ opening isAndroid) (selectApplet A AID)
  = Ok response ->
  (forall body, response <> body ++ [0x90; 0x00]) ->
  let stop := opening isAndroid ++ [Transceive (selectApplet A AID)] in
  (snd (readSecureElement C A nfcHandler isAndroid s)
   = after s (stop ++ [CancelTechnologyRequest])
   /\ (release (calls s ++ stop) = Ok tt ->
       fst (readSecureElement C A nfcHandler isAndroid s)
       = Throw "Selecting Applet failed"))
  /\ (len payload <= MAX_APDU_SIZE ->
      snd (signRawPayload A nfcHandler isAndroid payload s)
      = after s (stop ++ [CancelTechnologyRequest])
      /\ (release (calls s ++ stop) = Ok tt ->
          fst (signRawPayload A nfcHandler isAndroid payload s)
          = Throw "Selecting Applet failed")).
Proof.
  intros Hready Hreq Htime Hsel Hbad stop.
  pose proof (ensureReady_select_refused s response Hready Hreq Htime Hsel Hbad) as He.
  fold stop in He. split.
  - unfold readSecureElement. erewrite try_finally_close.
    2:{ rewrite try_catch_rethrow. apply (bindM_Throw _ _ _ _ _ He). }
    2:{ done. }
    rewrite after_after. split; [done|]. simpl. by intros ->.
  - intros Hsize. unfold signRawPayload. erewrite try_finally_close.
    2:{ rewrite try_catch_rethrow.
        destruct (Z.gtb_spec (len payload) MAX_APDU_SIZE); [lia|].
        apply (bindM_Throw _ _ _ _ _ He). }
    2:{ done. }
    rewrite after_after. split; [done|]. simpl. by intros ->.
Qed.

(** X18.  The start-up probe never throws.  Afterwards the instance is
    ready exactly when it was ready before or the handler reported
    support and then started; a handler that reports no support is not
    started. *)
Theorem init_ready s :
  let run := init nfcHandler s in
  (forall e, fst run <> Throw e)
  /\ (isReady (snd run) = true <->
      isReady s = true
      \/ (isSupported nfcHandler (calls s) = Ok true
          /\ start nfcHandler (calls s ++ [IsSupported]) = Ok tt))
  /\ (isSupported nfcHandler (calls s) <> Ok true ->
      calls (snd run) = calls s ++ [IsSupported]).
Proof.
  unfold init, try_catch, bindM, invoke, set_isReady, throw, ret. cbn.
  destruct (isSupported nfcHandler (calls s)) as [[|]| |] eqn:Hsup; cbn.
  - destruct (start nfcHandler (calls s ++ [IsSupported])) as [[]| |] eqn:Hst; cbn;
      (split; [done|]); (split; [|done]); split; intros; try tauto;
      try (destruct H as [?|[_ ?]]; [done|discriminate]).
  - split; [done|]. split; [|done].
    split; [tauto|]. intros [?|[? _]]; [done|discriminate].
  - split; [done|]. split; [|done].
    split; [tauto|]. intros [?|[? _]]; [done|discriminate].
  - split; [done|]. split; [|done].
    split; [tauto|]. intros [?|[? _]]; [done|discriminate].
Qed.

End FailFast.

Lemma not_ready_fails_fast_witness :
  fst (NfcCore.readSecureElement Fixture.accept_all Fixture.apdu
         (Fixture.scripted []) true Provisioned.fresh)
  = Throw "NFC is not supported on this device."
  /\ NfcCore.calls (snd (NfcCore.signRawPayload Fixture.apdu (Fixture.scripted [])
                           true [7] Provisioned.fresh))
     = [CancelTechnologyRequest].
Proof.
  split.
  - apply (proj2 (proj1 (not_ready_fails_fast Fixture.accept_all Fixture.apdu
                           (Fixture.scripted []) true [7] Provisioned.fresh eq_refl))).
    reflexivity.
  - apply (f_equal NfcCore.calls
             (proj1 (proj2 (not_ready_fails_fast Fixture.accept_all Fixture.apdu
                              (Fixture.scripted []) true [7] Provisioned.fresh eq_refl)
                       ltac:(discriminate)))).
Defined.

Lemma oversize_payload_refused_witness :
  fst (NfcCore.signRawPayload Fixture.apdu (Fixture.scripted []) false
         (replicate 901 0) Fixture.ready)
  = Throw "Transaction size cannot exceed 900 bytes, Size: 901".
Proof.
  apply (proj2 (oversize_payload_refused Fixture.apdu (Fixture.scripted []) false
                  (replicate 901 0) Fixture.ready eq_refl)).
  reflexivity.
Defined.

Lemma select_refused_witness :
  fst (NfcCore.signRawPayload Fixture.apdu Provisioned.no_applet true [7] Fixture.ready)
  = Throw "Selecting Applet failed"
  /\ NfcCore.sent (NfcCore.calls
       (snd (NfcCore.readSecureElement Fixture.accept_all Fixture.apdu
               Provisioned.no_applet true Fixture.ready)))
     = [selectApplet Fixture.apdu NfcCore.AID].
Proof.
  assert (Hbad : forall body : bytes, [0x6a; 0x82] <> body ++ [0x90; 0x00])
    by (intros [|x [|y [|z body]]]; discriminate).
  split.
  - apply (proj2 (proj2 (select_refused Fixture.accept_all Fixture.apdu
                           Provisioned.no_applet true [7] Fixture.ready [0x6a; 0x82]
                           eq_refl eq_refl (fun _ => eq_refl) eq_refl Hbad)
                    ltac:(discriminate))).
    reflexivity.
  - apply (f_equal (fun s => NfcCore.sent (NfcCore.calls s))
             (proj1 (proj1 (select_refused Fixture.accept_all Fixture.apdu
                              Provisioned.no_applet true [7] Fixture.ready [0x6a; 0x82]
                              eq_refl eq_refl (fun _ => eq_refl) eq_refl Hbad)))).
Defined.

Lemma init_ready_witness :
  NfcCore.calls (snd (NfcCore.init Provisioned.unsupported Provisioned.fresh))
  = [IsSupported]
  /\ NfcCore.isReady (snd (NfcCore.init (Fixture.scripted []) Provisioned.fresh)) = true.
Proof.
  split.
  - apply (proj2 (proj2 (init_ready Provisioned.unsupported Provisioned.fresh))).
    discriminate.
  - apply (proj2 (proj1 (proj2 (init_ready (Fixture.scripted []) Provisioned.fresh)))).
    right. split; reflexivity.
Defined.

Section ObjectReads.
Import NfcCore.
Context (C : Crypto) (A : Apdu) (nfcHandler : INfcHandler) (isAndroid : bool).

(** X19.  When [readStoredDataWithFallback] returns [null] and when it
    throws.  Given a create command and a non-empty message it returns
    an object or fails, never [null].  Given none, [null] stands for a
    failed exchange of the read and for nothing else: when the exchange
    fails, the result is [null] after that single exchange; when it
    succeeds, the result is that of the verification, so that an object
    that does not verify is an error thrown to the caller, not [null]. *)
Theorem fallback_null_or_throw readCommand createCommand key message createMessage s :
  createMessage <> EmptyString ->
  let first := fst (transceiveAndCheck nfcHandler readCommand message s) in
  let absent :=
    readStoredDataWithFallback C nfcHandler readCommand None key message None s in
  fst (readStoredDataWithFallback C nfcHandler readCommand (Some createCommand) key
         message (Some createMessage) s) <> Ok None
  /\ (forall e, first = Throw e ->
        absent = (Ok None, after s [Transceive readCommand]))
  /\ (forall response, first = Ok response ->
        absent = (bind (verifyData C response key message)
                    (fun stored => Ok (Some stored)),
                  after s [Transceive readCommand]))
  /\ (fst absent = Ok None <-> exists e, first = Throw e)
  /\ (forall e,
        fst absent = Throw e
        <-> exists response,
              first = Ok response
              /\ verifyData C response key message = Throw e).
Proof.
  intros Hmsg. cbv zeta.
  destruct (fst (transceiveAndCheck nfcHandler readCommand message s))
    as [response|e|] eqn:Hfirst.
  - rewrite !(fallback_answered C nfcHandler _ _ _ _ _ _ response Hfirst).
    cbn [fst]. split; [by destruct (verifyData C response key message)|].
    split; [done|]. split; [by intros ? [= <-]|]. split.
    + split; [by destruct (verifyData C response key message)|by intros [e ?]].
    + intros e. split.
      * intros He. exists response. split; [done|]. revert He.
        destruct (verifyData C response key message); simpl; congruence.
      * by intros (r & [= <-] & ->).
  - rewrite (fallback_absent C nfcHandler _ None _ _ None _ e Hfirst) by (by left).
    rewrite (fallback_create C nfcHandler _ _ _ _ _ _ e Hfirst Hmsg).
    cbn [fst]. split.
    + unfold bindM, ret.
      destruct (transceiveAndCheck nfcHandler createCommand createMessage _)
        as [[x| |] s2]; [|done..].
      by destruct (readAndVerify C nfcHandler readCommand key message s2) as [[o| |] s3].
    + split; [done|]. split; [done|]. split.
      * split; [by exists e|done].
      * intros e'. split; [done|by intros (r & ? & _)].
  - assert (Hdiv : forall create createMsg,
      fst (readStoredDataWithFallback C nfcHandler readCommand create key message
             createMsg s) = OutOfFuel).
    { intros create createMsg. unfold readStoredDataWithFallback, try_catch, bindM.
      destruct (transceiveAndCheck nfcHandler readCommand message s) as [[r| |] s1];
        simpl in *; done. }
    rewrite !Hdiv. split; [done|]. split; [done|]. split; [done|]. split.
    + split; [done|by intros [e ?]].
    + intros e. split; [done|by intros (r & ? & _)].
Qed.

(** X20.  When the key and the asset have both been read and the session
    is released, the result holds the key reversed by blocks and encoded
    in base 58, the asset without its first byte encoded in base 58, and
    the ledger that this first byte names in the table (none for an empty
    asset or an unknown byte). *)
Theorem readSecureElement_with_asset s key s1 pub s5 asset s6 :
  session_prefix C A nfcHandler isAndroid s = (Ok key, s1) ->
  readStoredPubkey C A nfcHandler key s1 = (Ok pub, s5) ->
  readStoredAsset C A nfcHandler key s5 = (Ok (Some asset), s6) ->
  cancelTechnologyRequest nfcHandler (calls s6) = Ok tt ->
  readSecureElement C A nfcHandler isAndroid s
  = (Ok {| walletAddress := bs58_encode C (toLittleEndian pub);
           mint := Some (bs58_encode C (drop 1 asset));
           blockchain := ledger_of asset |},
     after s6 [CancelTechnologyRequest]).
Proof.
  intros Hp Hk Ha Hrel. rewrite readSecureElement_steps.
  erewrite try_finally_close.
  2:{ rewrite (bindM_Ok _ _ _ _ _ Hp), (bindM_Ok _ _ _ _ _ Hk), (bindM_Ok _ _ _ _ _ Ha).
      reflexivity. }
  2:{ done. }
  rewrite Hrel. do 2 f_equal. cbn [fmap option_fmap option_map].
  change 1 with (Z.of_nat 1). rewrite slice_from_drop. f_equal.
  destruct asset as [|b rest]; [reflexivity|].
  unfold ledger_of, BLOCKCHAIN. cbn [find snd get].
  change (get (b :: rest) 0) with (Some b).
  destruct (decide (b = 1)) as [->|H1]; [reflexivity|].
  destruct (decide (b = 2)) as [->|H2]; [reflexivity|].
  destruct (decide (b = 3)) as [->|H3]; [reflexivity|].
  rewrite !bool_decide_eq_false_2 by (cbn; congruence).
  destruct b as [|p|p]; try done.
  do 3 (destruct p as [p|p|]; try done).
Qed.

End ObjectReads.

Lemma fallback_null_or_throw_witness :
  fst (NfcCore.readStoredDataWithFallback Fixture.accept_all Scenario.create_refused
         Scenario.readPub (Some Scenario.createPub) [0x04]
         "Reading Public Key failed" (Some "Generating Public Key failed"%string)
         Scenario.key_obtained) <> Ok None
  /\ fst (NfcCore.readStoredDataWithFallback Unverified.signed_by_one
            Unverified.forged_asset Scenario.readAsset None [0x04]
            "Reading Stored Asset failed" None Provisioned.key_read)
     = Throw "Reading Stored Asset failed".
Proof.
  split.
  - apply (proj1 (fallback_null_or_throw Fixture.accept_all Scenario.create_refused
                    Scenario.readPub Scenario.createPub [0x04]
                    "Reading Public Key failed" "Generating Public Key failed"
                    Scenario.key_obtained ltac:(discriminate))).
  - apply (proj2 (proj2 (proj2 (proj2 (proj2
             (fallback_null_or_throw Unverified.signed_by_one Unverified.forged_asset
                Scenario.readAsset Scenario.createPub [0x04]
                "Reading Stored Asset failed" "Generating Public Key failed"
                Provisioned.key_read ltac:(discriminate)))))
             "Reading Stored Asset failed"%string)).
    exists Unverified.bad_asset. split; reflexivity.
Defined.

Lemma readSecureElement_with_asset_witness :
  fst (NfcCore.readSecureElement Fixture.accept_all Fixture.apdu Provisioned.handler
         false Fixture.ready)
  = Ok {| NfcCore.walletAddress := "04030201";
          NfcCore.mint := Some "aabb"%string;
          NfcCore.blockchain := Some SOLANA |}.
Proof.
  apply (f_equal fst
           (readSecureElement_with_asset Fixture.accept_all Fixture.apdu
              Provisioned.handler false Fixture.ready [0x04] Scenario.key_obtained
              [1; 2; 3; 4] Provisioned.key_read Provisioned.asset
              (NfcCore.after Provisioned.key_read [Transceive Scenario.readAsset])
              eq_refl eq_refl eq_refl eq_refl)).
Defined.

(** ** The checks on stored objects *)

(** X21.  [readStoredPubkey] hands out a key only for an object of class
    1, of origin 2, whose authentication indicator is not 2 and whose
    policy bytes join to the text of the canonical policy; an object that
    could not be read is refused.  The asset check looks at nothing but
    the policy: class, origin and authentication indicator of an asset
    object are never examined. *)
Theorem stored_object_checks :
  (forall stored pubKey,
     NfcCore.readStoredPubkey_checks stored = Ok pubKey ->
     exists attrs,
       stored = Some {| data := pubKey; attributes := attrs |}
       /\ objectClass attrs = Some 1
       /\ origin attrs = Some 2
       /\ authenticationIndicator attrs <> Some 2
       /\ join_empty (policy attrs) = "80000243200"%string)
  /\ (forall mint attrs attrs',
        policy attrs = policy attrs' ->
        NfcCore.readStoredAsset_checks (Some {| data := mint; attributes := attrs |})
        = NfcCore.readStoredAsset_checks (Some {| data := mint; attributes := attrs' |})).
Proof.
  split.
  - intros stored pubKey. unfold NfcCore.readStoredPubkey_checks.
    destruct stored as [[d attrs]|]; [|done].
    destruct (bool_decide (objectClass attrs = Some 1)) eqn:Hc; [|done].
    destruct (bool_decide (origin attrs = Some 2)) eqn:Ho; [|done].
    destruct (bool_decide (authenticationIndicator attrs = Some 2)) eqn:Ha; [done|].
    cbn [negb].
    destruct (String.eqb _ _) eqn:Hp; [|done].
    intros [= ->]. exists attrs.
    apply bool_decide_eq_true_1 in Hc, Ho. apply bool_decide_eq_false_1 in Ha.
    by apply String.eqb_eq in Hp.
  - intros mint attrs attrs' Hp. unfold NfcCore.readStoredAsset_checks. by rewrite Hp.
Qed.

Lemma stored_object_checks_witness :
  exists attrs,
    Some {| data := [1; 2; 3; 4]; attributes := extractAttributes Scenario.key_attributes |}
    = Some {| data := [1; 2; 3; 4]; attributes := attrs |}
    /\ objectClass attrs = Some 1
    /\ origin attrs = Some 2
    /\ authenticationIndicator attrs <> Some 2
    /\ join_empty (policy attrs) = "80000243200"%string.
Proof.
  apply (proj1 stored_object_checks
           (Some {| data := [1; 2; 3; 4];
                    attributes := extractAttributes Scenario.key_attributes |})
           [1; 2; 3; 4]).
  reflexivity.
Defined.

(** ** apdu: the builders *)

(** X22.  For all arguments the length field of the array built by
    [createAsset] is the number of elements that follow it; laid out byte
    by byte these elements are that many bytes plus the length of [id]
    minus one, so the field is the byte count exactly when [id] has one
    byte. *)
Theorem createAsset_length_field id assetIdentifier assetId :
  let command := createAsset id assetIdentifier assetId in
  let field := 20 + len assetIdentifier + len assetId in
  take 5 command = [Num 0x80; Num 0x01; Num 0x06; Num 0x00; Num field]
  /\ len (drop 5 command) = field
  /\ len (drop 5 (flat command)) = field + len id - 1.
Proof.
  cbn zeta. split; [|split].
  - by rewrite createAsset_shape.
  - rewrite createAsset_shape. cbn [app drop]. unfold len.
    repeat (progress cbn [length] || rewrite length_app || rewrite length_fmap). lia.
  - rewrite createAsset_payload_bytes. lia.
Qed.

(** X23.  The command built by [readData] has eleven bytes more than the
    key, which can be read back from it (offset 9 up to the last two
    bytes); different keys therefore give different commands. *)
Theorem readData_key key key' :
  len (readData key) = 11 + len key
  /\ slice (readData key) 9 (-2) = key
  /\ (readData key = readData key' -> key = key').
Proof.
  assert (Hback : forall k, slice (readData k) 9 (-2) = k).
  { intros k. unfold readData. cbn [app].
    set (cmd := 0x80 :: _).
    assert (Hlen : len cmd = 11 + len k).
    { unfold cmd, len. cbn [length]. rewrite length_app. simpl. lia. }
    pose proof (len_nonneg k).
    unfold slice, clamp. rewrite Hlen.
    destruct (Z.ltb_spec 9 0); [lia|]. destruct (Z.ltb_spec (-2) 0); [|lia].
    rewrite Z.min_l, Z.max_l by lia.
    replace (Z.to_nat (11 + len k + -2 - 9)) with (length k) by (unfold len; lia).
    change (Z.to_nat 9) with 9%nat. unfold cmd. cbn [drop].
    by rewrite drop_0, take_app_length. }
  split; [|split].
  - unfold readData, len. cbn [app length]. rewrite length_app. simpl. lia.
  - apply Hback.
  - intros Heq. by rewrite <- (Hback key), <- (Hback key'), Heq.
Qed.

Section SignatureFailure.
Import NfcCore.
Context (C : Crypto) (nfcHandler : INfcHandler).

(** X24.  A first read that succeeds on the transport is not made again
    and no create command follows it, whatever is wired: the outcome is
    that of the verification.  So an object whose signature does not
    verify is not handled like a missing object: the caller's read
    message is thrown after that single exchange. *)
Theorem unverified_read_is_thrown readCommand createCommand key message createMessage s :
  (forall body,
     transceive nfcHandler (calls s) readCommand = Ok (body ++ [0x90; 0x00]) ->
     readStoredDataWithFallback C nfcHandler readCommand createCommand key message
       createMessage s
     = (bind (verifyData C body key message) (fun stored => Ok (Some stored)),
        after s [Transceive readCommand]))
  /\ (forall t1 t2 t3 t4 t5 t6,
        transceive nfcHandler (calls s) readCommand
        = Ok (object_fields t1 t2 t3 t4 t5 t6 ++ [0x90; 0x00]) ->
        Forall (fun t => Forall is_byte t /\ len t <= 65535) [t1; t2; t3; t4; t5; t6] ->
        p256_verify C (HexBytes t6) (sha256 C (t1 ++ t2 ++ t3 ++ t4 ++ t5)) key
        = Ok false ->
        readStoredDataWithFallback C nfcHandler readCommand createCommand key message
          createMessage s
        = (Throw message, after s [Transceive readCommand])).
Proof.
  assert (Hanswered : forall body,
    transceive nfcHandler (calls s) readCommand = Ok (body ++ [0x90; 0x00]) ->
    readStoredDataWithFallback C nfcHandler readCommand createCommand key message
      createMessage s
    = (bind (verifyData C body key message) (fun stored => Ok (Some stored)),
       after s [Transceive readCommand])).
  { intros body Hresp. apply fallback_answered.
    by rewrite (transceiveAndCheck_success _ _ _ _ _ Hresp). }
  split; [exact Hanswered|].
  intros t1 t2 t3 t4 t5 t6 Hresp Hall Hbad.
  rewrite (Hanswered _ Hresp). by rewrite verifyData_fields, Hbad.
Qed.

End SignatureFailure.

Lemma unverified_read_is_thrown_witness :
  NfcCore.readStoredDataWithFallback (Fixture.stub false)
    (Fixture.scripted [Fixture.success Provisioned.key_response])
    Scenario.readPub (Some Scenario.createPub) [0x04]
    "Reading Public Key failed" (Some "Generating Public Key failed"%string)
    Fixture.ready
  = (Throw "Reading Public Key failed",
     NfcCore.after Fixture.ready [Transceive Scenario.readPub]).
Proof.
  apply (proj2 (unverified_read_is_thrown (Fixture.stub false)
                  (Fixture.scripted [Fixture.success Provisioned.key_response])
                  Scenario.readPub (Some Scenario.createPub) [0x04]
                  "Reading Public Key failed"
                  (Some "Generating Public Key failed"%string) Fixture.ready)
           [1; 2; 3; 4] Scenario.key_attributes [] [] [] []);
    [reflexivity | | reflexivity].
  repeat constructor; unfold is_byte, len; simpl; lia.
Defined.
